(** * infinite-emojis: the camera / viewport / virtualization engine

    A shallow embedding of [src/render.ts] (class [CanvasAnimation]) and
    the properties of its camera, cell addressor, virtualized render loop
    and pointer/inertia model.

    Numbers.  The engine is embedded twice.  In [CanvasAnimation] a
    JavaScript [number] is an exact rational ([Q]): [+ - * /] are the
    field operations, [Math.floor] is [Qfloor], [Math.abs] is [Qabs],
    [Math.max] is [Qmax]; this is the model of the algebra of the engine.
    In [Double.CanvasAnimation] a [number] is a binary64 double with its
    rounding, infinities and NaN; this is the model of the results that
    rounding or overflow decide.  Integer-valued numbers (grid counts,
    loop counters, cell indices) are [Z]; on them JavaScript's [%] is
    the truncating remainder [Z.rem].

    State.  The instance fields of [CanvasAnimation] are the fields of the
    record [CanvasAnimation.t]; every method is a function from state to
    state.  The drawing context [ctx] is write-only for the engine: the
    render loop is modelled by the list of cells it draws.  The diagnostic
    overlay ([drawDebugPanel]) reads the state and writes only [framerate]
    and [prevTime]; those two fields, [isOffscreen] and [debugConfig] are
    not part of the modelled state. *)

From Stdlib Require Import ZArith QArith Qabs Qround Qminmax Qpower.
From Stdlib Require Import List Sorted Bool String Lia Lqa.
From Stdlib Require PrimFloat SpecFloat FloatOps.
Import ListNotations.

Local Open Scope Q_scope.

(** ** Comparisons of numbers

    [a < b] and [a === b] as boolean tests, as the conditions of the
    source use them. *)

Definition Qltb (a b : Q) : bool :=
  (Qnum a * QDen b <? Qnum b * QDen a)%Z.

(** ** Geometry types ([src/types.ts], as used by [render.ts]) *)

Module Vec2.
Record t : Type := mk { x : Q; y : Q }.
Definition zero : t := mk 0 0.
(** Both components are the rational zero. *)
Definition isZero (v : t) : Prop := x v == 0 /\ y v == 0.
End Vec2.

Module Vec3.
Record t : Type := mk { x : Q; y : Q; z : Q }.
End Vec3.

Module Box.
Record t : Type := mk {
  minX : Q; minY : Q; maxX : Q; maxY : Q; width : Q; height : Q }.
End Box.

Module Grid.
Record t : Type := mk { rows : Z; cols : Z }.
End Grid.

Module Size.
Record t : Type := mk { width : Q; height : Q }.
End Size.

Module Mouse.
Record t : Type := mk { previous : Vec2.t; current : Vec2.t }.
End Mouse.

Module CellRef.
Record t : Type := mk { index : Z; col : Z; row : Z }.
End CellRef.

(** One iteration of the render loop that reaches the drawing calls:
    the loop counter, the rectangle passed to [ctx.rect], the anchor of
    the index label and the glyph with its anchor.  All coordinates are
    in the translated context ([ctx.translate(camera.x, camera.y)]). *)
Module Drawn.
Record t : Type := mk {
  i : Z;
  rectX : Q; rectY : Q; rectW : Q; rectH : Q;
  labelX : Q; labelY : Q;
  glyph : string; glyphX : Q; glyphY : Q }.
End Drawn.

(** ** The engine *)

Module CanvasAnimation.

Record t : Type := mk {
  camera : Vec3.t;
  canvas : Box.t;
  viewport : Box.t;
  grid : Grid.t;
  cell : Size.t;
  mouse : option Mouse.t;
  emojis : list string;
  pressStartPoint : Vec2.t;
  velocity : Vec2.t;
  activeCell : CellRef.t;
  hoveredCell : CellRef.t;
  isPressed : bool }.

Definition set_camera (c : Vec3.t) (s : t) : t :=
  mk c (canvas s) (viewport s) (grid s) (cell s) (mouse s) (emojis s)
     (pressStartPoint s) (velocity s) (activeCell s) (hoveredCell s)
     (isPressed s).

Definition set_canvas (b : Box.t) (s : t) : t :=
  mk (camera s) b (viewport s) (grid s) (cell s) (mouse s) (emojis s)
     (pressStartPoint s) (velocity s) (activeCell s) (hoveredCell s)
     (isPressed s).

Definition set_viewport (b : Box.t) (s : t) : t :=
  mk (camera s) (canvas s) b (grid s) (cell s) (mouse s) (emojis s)
     (pressStartPoint s) (velocity s) (activeCell s) (hoveredCell s)
     (isPressed s).

Definition set_cell (c : Size.t) (s : t) : t :=
  mk (camera s) (canvas s) (viewport s) (grid s) c (mouse s) (emojis s)
     (pressStartPoint s) (velocity s) (activeCell s) (hoveredCell s)
     (isPressed s).

Definition set_mouse (m : option Mouse.t) (s : t) : t :=
  mk (camera s) (canvas s) (viewport s) (grid s) (cell s) m (emojis s)
     (pressStartPoint s) (velocity s) (activeCell s) (hoveredCell s)
     (isPressed s).

Definition set_emojis (e : list string) (s : t) : t :=
  mk (camera s) (canvas s) (viewport s) (grid s) (cell s) (mouse s) e
     (pressStartPoint s) (velocity s) (activeCell s) (hoveredCell s)
     (isPressed s).

Definition set_pressStartPoint (p : Vec2.t) (s : t) : t :=
  mk (camera s) (canvas s) (viewport s) (grid s) (cell s) (mouse s) (emojis s)
     p (velocity s) (activeCell s) (hoveredCell s) (isPressed s).

Definition set_velocity (v : Vec2.t) (s : t) : t :=
  mk (camera s) (canvas s) (viewport s) (grid s) (cell s) (mouse s) (emojis s)
     (pressStartPoint s) v (activeCell s) (hoveredCell s) (isPressed s).

Definition set_activeCell (c : CellRef.t) (s : t) : t :=
  mk (camera s) (canvas s) (viewport s) (grid s) (cell s) (mouse s) (emojis s)
     (pressStartPoint s) (velocity s) c (hoveredCell s) (isPressed s).

Definition set_hoveredCell (c : CellRef.t) (s : t) : t :=
  mk (camera s) (canvas s) (viewport s) (grid s) (cell s) (mouse s) (emojis s)
     (pressStartPoint s) (velocity s) (activeCell s) c (isPressed s).

Definition set_isPressed (b : bool) (s : t) : t :=
  mk (camera s) (canvas s) (viewport s) (grid s) (cell s) (mouse s) (emojis s)
     (pressStartPoint s) (velocity s) (activeCell s) (hoveredCell s) b.

(** [camera.x = v] and [camera.y = v]: assignment to one component. *)
Definition set_camera_x (v : Q) (s : t) : t :=
  set_camera (Vec3.mk v (Vec3.y (camera s)) (Vec3.z (camera s))) s.

Definition set_camera_y (v : Q) (s : t) : t :=
  set_camera (Vec3.mk (Vec3.x (camera s)) v (Vec3.z (camera s))) s.

(** The field initialisers of the class.  [canvas] and [viewport] have
    no initialiser; the constructor's [resize] call overwrites both
    before anything reads them, so the zero boxes below are never seen. *)
Definition fields : t :=
  mk (Vec3.mk 0 0 1)
     (Box.mk 0 0 0 0 0 0)
     (Box.mk 0 0 0 0 0 0)
     (Grid.mk 10 10)
     (Size.mk 0 0)
     None
     []
     (Vec2.mk 0 0)
     (Vec2.mk 0 0)
     (CellRef.mk 0 0 0)
     (CellRef.mk 0 0 0)
     false.

(** [screenToCanvas(point)] *)
Definition screenToCanvas (point : Vec2.t) (s : t) : Vec2.t :=
  Vec2.mk (Vec2.x point / Vec3.z (camera s) - Vec3.x (camera s))
          (Vec2.y point / Vec3.z (camera s) - Vec3.y (camera s)).

(** [panCamera(dx, dy)]: the x component, then the y component, then the
    viewport rectangle rebuilt from the new camera. *)
Definition panCameraX (dx : Q) (s : t) : t :=
  if Qltb (- Vec3.x (camera s)) 0
  then set_camera_x (- Box.width (canvas s)) s
  else if Qltb (Box.width (canvas s)) (- Vec3.x (camera s))
  then set_camera_x 0 s
  else set_camera_x (Vec3.x (camera s) - dx / Vec3.z (camera s)) s.

Definition panCameraY (dy : Q) (s : t) : t :=
  if Qltb (- Vec3.y (camera s)) 0
  then set_camera_y (- Box.height (canvas s)) s
  else if Qltb (Box.height (canvas s)) (- Vec3.y (camera s))
  then set_camera_y 0 s
  else set_camera_y (Vec3.y (camera s) - dy / Vec3.z (camera s)) s.

Definition refreshViewport (s : t) : t :=
  set_viewport
    (Box.mk (- Vec3.x (camera s))
            (- Vec3.y (camera s))
            (- Vec3.x (camera s) + Box.width (viewport s))
            (- Vec3.y (camera s) + Box.height (viewport s))
            (Box.width (viewport s))
            (Box.height (viewport s))) s.

Definition panCamera (dx dy : Q) (s : t) : t :=
  refreshViewport (panCameraY dy (panCameraX dx s)).

(** [animateVelocity()] *)
Definition animateVelocity (s : t) : t :=
  if isPressed s then s
  else if Qeq_bool (Vec2.x (velocity s)) 0 && Qeq_bool (Vec2.y (velocity s)) 0
  then s
  else if Qltb (Qabs (Vec2.x (velocity s))) (1 # 10)
          && Qltb (Qabs (Vec2.y (velocity s))) (1 # 10)
  then set_velocity (Vec2.mk 0 0) s
  else
    let s1 := panCamera (Vec2.x (velocity s)) (Vec2.y (velocity s)) s in
    set_velocity (Vec2.mk (Vec2.x (velocity s1) * (9 # 10))
                          (Vec2.y (velocity s1) * (9 # 10))) s1.

(** [getCellIndexFromPoint(x, y)] *)
Definition getCellIndexFromPoint (x y : Q) (s : t) : CellRef.t :=
  let canvasPoint := screenToCanvas (Vec2.mk x y) s in
  let col := Z.rem (Qfloor (Vec2.x canvasPoint / Size.width (cell s)))
                   (Grid.cols (grid s)) in
  let row := Z.rem (Qfloor (Vec2.y canvasPoint / Size.height (cell s)))
                   (Grid.rows (grid s)) in
  let nCol := if (0 <=? col)%Z then col else (Grid.cols (grid s) + col)%Z in
  let nRow := if (0 <=? row)%Z then row else (Grid.rows (grid s) + row)%Z in
  CellRef.mk (nCol + nRow * Grid.cols (grid s))%Z nCol nRow.

(** [resize(width, height)] *)
Definition resize (width height : Q) (s : t) : t :=
  let s1 :=
    set_viewport
      (Box.mk (- Vec3.x (camera s))
              (- Vec3.y (camera s))
              (- Vec3.x (camera s) + width)
              (- Vec3.y (camera s) + height)
              width
              height) s in
  let cellWidth :=
    Qmax (Box.width (viewport s1) / 4) (Box.height (viewport s1) / 4) in
  let s2 := set_cell (Size.mk cellWidth (cellWidth / 4 * 5)) s1 in
  set_canvas
    (Box.mk 0
            0
            (Size.width (cell s2) * inject_Z (Grid.cols (grid s2)))
            (Size.height (cell s2) * inject_Z (Grid.rows (grid s2)))
            (Size.width (cell s2) * inject_Z (Grid.cols (grid s2)))
            (Size.height (cell s2) * inject_Z (Grid.rows (grid s2)))) s2.

(** The constructor: [resize(width, height)] on the field initialisers,
    then [emojis.slice(0, cols * rows)].  The imported list [emojis] of
    [./emojis] is the argument [source]. *)
Definition construct (source : list string) (width height : Q) : t :=
  let s := resize width height fields in
  set_emojis
    (firstn (Z.to_nat (Grid.cols (grid s) * Grid.rows (grid s))) source) s.

(** *** The render loop *)

Section RenderLoop.
Variable s : t.

Definition rowIndex (i : Z) : Z := Z.rem i (Grid.cols (grid s)).

Definition colIndex (i : Z) : Z :=
  Qfloor (inject_Z i / inject_Z (Grid.cols (grid s))).

Definition cellMinX (i : Z) : Q :=
  Vec3.x (camera s) + inject_Z (rowIndex i) * Size.width (cell s).

Definition cellMinY (i : Z) : Q :=
  Vec3.y (camera s) + inject_Z (colIndex i) * Size.height (cell s).

Definition shiftX (i : Z) : Q :=
  if Qltb (cellMinX i + Size.width (cell s)) 0
  then Box.width (canvas s)
  else if Qltb (Box.width (viewport s) + Size.width (cell s)) (cellMinX i)
  then - Box.width (canvas s)
  else 0.

Definition shiftY (i : Z) : Q :=
  if Qltb (cellMinY i + Size.height (cell s)) 0
  then Box.height (canvas s)
  else if Qltb (Box.height (viewport s) + Size.height (cell s)) (cellMinY i)
  then - Box.height (canvas s)
  else 0.

Definition isVisibleX (i : Z) : bool :=
  Qltb (shiftX i + cellMinX i + Size.width (cell s))
       (Box.width (viewport s) + Size.width (cell s)).

Definition isVisibleY (i : Z) : bool :=
  Qltb (shiftY i + cellMinY i + Size.height (cell s))
       (Box.height (viewport s) + Size.height (cell s)).

(** The body of the loop for counter [i] and glyph [emojis[i]]:
    [None] is the [continue], [Some] carries the drawing calls. *)
Definition drawCell (i : Z) (e : string) : option Drawn.t :=
  if negb (isVisibleX i) || negb (isVisibleY i) then None
  else
    Some (Drawn.mk i
      (inject_Z (rowIndex i) * Size.width (cell s) + shiftX i)
      (inject_Z (colIndex i) * Size.height (cell s) + shiftY i)
      (Size.width (cell s))
      (Size.height (cell s))
      (inject_Z (rowIndex i) * Size.width (cell s) + shiftX i
         + Box.width (viewport s) / 55)
      (inject_Z (colIndex i) * Size.height (cell s) + shiftY i
         + Box.width (viewport s) / 50)
      e
      (inject_Z (rowIndex i) * Size.width (cell s) + shiftX i
         + Size.width (cell s) / 2)
      (inject_Z (colIndex i) * Size.height (cell s) + shiftY i
         + Size.height (cell s) / 2)).

(** [for (let i = ...; i < emojis.length; i++)], from counter [i] over
    the glyphs [emojis[i..]]. *)
Fixpoint renderLoop (i : Z) (rest : list string) : list Drawn.t :=
  match rest with
  | [] => []
  | e :: rest' =>
      match drawCell i e with
      | None => renderLoop (i + 1)%Z rest'
      | Some d => d :: renderLoop (i + 1)%Z rest'
      end
  end.

End RenderLoop.

(** [render(timestamp)]: the state after the frame and the cells drawn
    in it, in drawing order. *)
Definition render (timestamp : Q) (s : t) : t * list Drawn.t :=
  let s1 := animateVelocity s in
  (s1, renderLoop s1 0%Z (emojis s1)).

(** *** Event handlers *)

Definition onMove (x y : Q) (s : t) : t :=
  let m :=
    match mouse s with
    | None => Mouse.mk (Vec2.mk x y) (Vec2.mk x y)
    | Some m0 =>
        Mouse.mk (Vec2.mk (Vec2.x (Mouse.current m0))
                          (Vec2.y (Mouse.current m0)))
                 (Vec2.mk x y)
    end in
  let s1 := set_mouse (Some m) s in
  let s2 :=
    if isPressed s1 then
      let s' :=
        set_velocity
          (Vec2.mk (Vec2.x (Mouse.previous m) - Vec2.x (Mouse.current m))
                   (Vec2.y (Mouse.previous m) - Vec2.y (Mouse.current m)))
          s1 in
      panCamera (Vec2.x (velocity s')) (Vec2.y (velocity s')) s'
    else s1 in
  set_hoveredCell (getCellIndexFromPoint x y s2) s2.

(** [onPress(isPressed, x?, y?)]: an omitted argument is [None]. *)
Definition onPress (pressed : bool) (x y : option Q) (s : t) : t :=
  let s1 := set_isPressed pressed s in
  if pressed then
    let s2 := set_velocity (Vec2.mk 0 0) s1 in
    match x, y with
    | Some x', Some y' => set_pressStartPoint (Vec2.mk x' y') s2
    | _, _ => s2
    end
  else
    match x, y with
    | Some x', Some _ =>
        if Qltb (Qabs (Vec2.x (pressStartPoint s1) - x')) 10
        then set_velocity (Vec2.mk 0 0) s1
        else s1
    | _, _ => s1
    end.

Definition onClick (x y : Q) (s : t) : t :=
  if Qltb 10 (Qabs (Vec2.x (pressStartPoint s) - x)) then s
  else set_activeCell (getCellIndexFromPoint x y s) s.

Definition onWheel (deltaX deltaY : Q) (s : t) : t :=
  panCamera (- deltaX) (- deltaY) s.

Definition onResize (width height : Q) (s : t) : t :=
  resize width height s.

(** *** Sessions

    What the host can do with an instance after constructing it. *)

Inductive Op : Type :=
| Render (timestamp : Q)
| OnMove (x y : Q)
| OnPress (pressed : bool) (x y : option Q)
| OnClick (x y : Q)
| OnWheel (deltaX deltaY : Q)
| OnResize (width height : Q).

Definition step (o : Op) (s : t) : t :=
  match o with
  | Render ts => fst (render ts s)
  | OnMove x y => onMove x y s
  | OnPress b x y => onPress b x y s
  | OnClick x y => onClick x y s
  | OnWheel dx dy => onWheel dx dy s
  | OnResize w h => onResize w h s
  end.

Definition run (ops : list Op) (s : t) : t :=
  fold_left (fun acc o => step o acc) ops s.

(** [n] successive calls of [f]. *)
Fixpoint repeatCall (n : nat) (f : t -> t) (s : t) : t :=
  match n with
  | O => s
  | S n' => repeatCall n' f (f s)
  end.

End CanvasAnimation.

(** * The engine in IEEE binary64

    The same class with every [number] a binary64 double, as JavaScript
    evaluates it: [+ - * /] round to nearest even, [<], [>] and [===] are
    the IEEE comparisons (false on NaN, [-0] equal to [0]).  It is the
    model for the results where rounding, overflow or NaN decide; the
    exact model above is the one for the algebra.

    The loop counter and the grid counts stay integers ([Z]).  The three
    components of a cell reference are integer-valued doubles or NaN:
    [Some z] is the integer [z] (either sign of zero is [Some 0]), [None]
    is NaN. *)

Module Double.
Import PrimFloat.
Local Open Scope float_scope.

(** ** Numbers *)

(** The double of an integer; exact up to [2^53] in magnitude. *)
Definition ofZ (z : Z) : float :=
  if (z <? 0)%Z then - of_uint63 (Uint63Axioms.of_Z (- z))
  else of_uint63 (Uint63Axioms.of_Z z).

(** The value [(-1)^s * m] of a sign and a mantissa. *)
Definition signed (s : bool) (m : positive) : Z :=
  if s then Z.neg m else Z.pos m.

(** [Number.isFinite(f)]: neither NaN nor an infinity. *)
Definition isFiniteNumber (f : float) : bool :=
  match FloatOps.Prim2SF f with
  | SpecFloat.S754_zero _ => true
  | SpecFloat.S754_finite _ _ _ => true
  | _ => false
  end.

(** [Math.floor(f)] as an integer: a finite double is [(-1)^s * m * 2^e],
    and shifting by [e] is multiplying by [2^e] rounded down.  [None]
    when [f] is not finite (the floor is then [f] itself). *)
Definition jsFloorZ (f : float) : option Z :=
  match FloatOps.Prim2SF f with
  | SpecFloat.S754_zero _ => Some 0%Z
  | SpecFloat.S754_finite s m e => Some (Z.shiftl (signed s m) e)
  | _ => None
  end.

(** [Math.floor(f)] as a double.  A double with no fractional bits
    ([0 <= e]), a zero, an infinity and NaN are their own floor; the
    others are below [2^53] in magnitude, where [ofZ] is exact. *)
Definition jsFloor (f : float) : float :=
  match FloatOps.Prim2SF f with
  | SpecFloat.S754_finite s m e =>
      if (e <? 0)%Z then ofZ (Z.shiftl (signed s m) e) else f
  | _ => f
  end.

(** [a % n] for [a] an integer-valued double, an infinity or NaN (as
    [jsFloorZ] gives it) and an integer [n]: the truncating remainder,
    NaN when [a] is not finite or [n] is zero. *)
Definition jsRemZ (a : option Z) (n : Z) : option Z :=
  match a with
  | Some z => if (n =? 0)%Z then None else Some (Z.rem z n)
  | None => None
  end.

(** [Math.max(a, b)]: NaN if either is NaN; of two zeros, [+0] unless
    both are [-0]. *)
Definition jsMax (a b : float) : float :=
  if is_nan a || is_nan b then nan
  else if a <? b then b
  else if b <? a then a
  else if is_zero a then a + b
  else a.

(** ** Geometry types *)

Module Vec2.
Record t : Type := mk { x : float; y : float }.
End Vec2.

Module Vec3.
Record t : Type := mk { x : float; y : float; z : float }.
End Vec3.

Module Box.
Record t : Type := mk {
  minX : float; minY : float; maxX : float; maxY : float;
  width : float; height : float }.
End Box.

Module Size.
Record t : Type := mk { width : float; height : float }.
End Size.

Module Mouse.
Record t : Type := mk { previous : Vec2.t; current : Vec2.t }.
End Mouse.

Module CellRef.
Record t : Type := mk { index : option Z; col : option Z; row : option Z }.
End CellRef.

Module Drawn.
Record t : Type := mk {
  i : Z;
  rectX : float; rectY : float; rectW : float; rectH : float;
  labelX : float; labelY : float;
  glyph : string; glyphX : float; glyphY : float }.
End Drawn.

(** ** The engine *)

Module CanvasAnimation.

Record t : Type := mk {
  camera : Vec3.t;
  canvas : Box.t;
  viewport : Box.t;
  grid : Grid.t;
  cell : Size.t;
  mouse : option Mouse.t;
  emojis : list string;
  pressStartPoint : Vec2.t;
  velocity : Vec2.t;
  activeCell : CellRef.t;
  hoveredCell : CellRef.t;
  isPressed : bool }.

Definition set_camera (c : Vec3.t) (s : t) : t :=
  mk c (canvas s) (viewport s) (grid s) (cell s) (mouse s) (emojis s)
     (pressStartPoint s) (velocity s) (activeCell s) (hoveredCell s)
     (isPressed s).

Definition set_canvas (b : Box.t) (s : t) : t :=
  mk (camera s) b (viewport s) (grid s) (cell s) (mouse s) (emojis s)
     (pressStartPoint s) (velocity s) (activeCell s) (hoveredCell s)
     (isPressed s).

Definition set_viewport (b : Box.t) (s : t) : t :=
  mk (camera s) (canvas s) b (grid s) (cell s) (mouse s) (emojis s)
     (pressStartPoint s) (velocity s) (activeCell s) (hoveredCell s)
     (isPressed s).

Definition set_cell (c : Size.t) (s : t) : t :=
  mk (camera s) (canvas s) (viewport s) (grid s) c (mouse s) (emojis s)
     (pressStartPoint s) (velocity s) (activeCell s) (hoveredCell s)
     (isPressed s).

Definition set_mouse (m : option Mouse.t) (s : t) : t :=
  mk (camera s) (canvas s) (viewport s) (grid s) (cell s) m (emojis s)
     (pressStartPoint s) (velocity s) (activeCell s) (hoveredCell s)
     (isPressed s).

Definition set_emojis (e : list string) (s : t) : t :=
  mk (camera s) (canvas s) (viewport s) (grid s) (cell s) (mouse s) e
     (pressStartPoint s) (velocity s) (activeCell s) (hoveredCell s)
     (isPressed s).

Definition set_pressStartPoint (p : Vec2.t) (s : t) : t :=
  mk (camera s) (canvas s) (viewport s) (grid s) (cell s) (mouse s) (emojis s)
     p (velocity s) (activeCell s) (hoveredCell s) (isPressed s).

Definition set_velocity (v : Vec2.t) (s : t) : t :=
  mk (camera s) (canvas s) (viewport s) (grid s) (cell s) (mouse s) (emojis s)
     (pressStartPoint s) v (activeCell s) (hoveredCell s) (isPressed s).

Definition set_activeCell (c : CellRef.t) (s : t) : t :=
  mk (camera s) (canvas s) (viewport s) (grid s) (cell s) (mouse s) (emojis s)
     (pressStartPoint s) (velocity s) c (hoveredCell s) (isPressed s).

Definition set_hoveredCell (c : CellRef.t) (s : t) : t :=
  mk (camera s) (canvas s) (viewport s) (grid s) (cell s) (mouse s) (emojis s)
     (pressStartPoint s) (velocity s) (activeCell s) c (isPressed s).

Definition set_isPressed (b : bool) (s : t) : t :=
  mk (camera s) (canvas s) (viewport s) (grid s) (cell s) (mouse s) (emojis s)
     (pressStartPoint s) (velocity s) (activeCell s) (hoveredCell s) b.

Definition set_camera_x (v : float) (s : t) : t :=
  set_camera (Vec3.mk v (Vec3.y (camera s)) (Vec3.z (camera s))) s.

Definition set_camera_y (v : float) (s : t) : t :=
  set_camera (Vec3.mk (Vec3.x (camera s)) v (Vec3.z (camera s))) s.

(** The field initialisers; [canvas] and [viewport] are overwritten by
    the constructor's [resize] before anything reads them. *)
Definition fields : t :=
  mk (Vec3.mk 0 0 1)
     (Box.mk 0 0 0 0 0 0)
     (Box.mk 0 0 0 0 0 0)
     (Grid.mk 10 10)
     (Size.mk 0 0)
     None
     []
     (Vec2.mk 0 0)
     (Vec2.mk 0 0)
     (CellRef.mk (Some 0%Z) (Some 0%Z) (Some 0%Z))
     (CellRef.mk (Some 0%Z) (Some 0%Z) (Some 0%Z))
     false.

Definition screenToCanvas (point : Vec2.t) (s : t) : Vec2.t :=
  Vec2.mk (Vec2.x point / Vec3.z (camera s) - Vec3.x (camera s))
          (Vec2.y point / Vec3.z (camera s) - Vec3.y (camera s)).

Definition panCameraX (dx : float) (s : t) : t :=
  if - Vec3.x (camera s) <? 0
  then set_camera_x (- Box.width (canvas s)) s
  else if Box.width (canvas s) <? - Vec3.x (camera s)
  then set_camera_x 0 s
  else set_camera_x (Vec3.x (camera s) - dx / Vec3.z (camera s)) s.

Definition panCameraY (dy : float) (s : t) : t :=
  if - Vec3.y (camera s) <? 0
  then set_camera_y (- Box.height (canvas s)) s
  else if Box.height (canvas s) <? - Vec3.y (camera s)
  then set_camera_y 0 s
  else set_camera_y (Vec3.y (camera s) - dy / Vec3.z (camera s)) s.

Definition refreshViewport (s : t) : t :=
  set_viewport
    (Box.mk (- Vec3.x (camera s))
            (- Vec3.y (camera s))
            (- Vec3.x (camera s) + Box.width (viewport s))
            (- Vec3.y (camera s) + Box.height (viewport s))
            (Box.width (viewport s))
            (Box.height (viewport s))) s.

Definition panCamera (dx dy : float) (s : t) : t :=
  refreshViewport (panCameraY dy (panCameraX dx s)).

(** [0.1] and [0.9] are the doubles nearest to one tenth and nine
    tenths. *)
Definition animateVelocity (s : t) : t :=
  if isPressed s then s
  else if (Vec2.x (velocity s) =? 0) && (Vec2.y (velocity s) =? 0)
  then s
  else if (abs (Vec2.x (velocity s)) <? 0x1.999999999999ap-4)
          && (abs (Vec2.y (velocity s)) <? 0x1.999999999999ap-4)
  then set_velocity (Vec2.mk 0 0) s
  else
    let s1 := panCamera (Vec2.x (velocity s)) (Vec2.y (velocity s)) s in
    set_velocity (Vec2.mk (Vec2.x (velocity s1) * 0x1.ccccccccccccdp-1)
                          (Vec2.y (velocity s1) * 0x1.ccccccccccccdp-1)) s1.

(** [getCellIndexFromPoint(x, y)].  [NaN >= 0] is false and
    [cols + NaN] is NaN, so a NaN remainder stays NaN; the index is NaN
    as soon as the column or the row is. *)
Definition getCellIndexFromPoint (x y : float) (s : t) : CellRef.t :=
  let canvasPoint := screenToCanvas (Vec2.mk x y) s in
  let col := jsRemZ (jsFloorZ (Vec2.x canvasPoint / Size.width (cell s)))
                    (Grid.cols (grid s)) in
  let row := jsRemZ (jsFloorZ (Vec2.y canvasPoint / Size.height (cell s)))
                    (Grid.rows (grid s)) in
  let nCol :=
    match col with
    | Some c => if (0 <=? c)%Z then Some c else Some (Grid.cols (grid s) + c)%Z
    | None => None
    end in
  let nRow :=
    match row with
    | Some r => if (0 <=? r)%Z then Some r else Some (Grid.rows (grid s) + r)%Z
    | None => None
    end in
  CellRef.mk
    match nCol, nRow with
    | Some c, Some r => Some (c + r * Grid.cols (grid s))%Z
    | _, _ => None
    end
    nCol nRow.

Definition resize (width height : float) (s : t) : t :=
  let s1 :=
    set_viewport
      (Box.mk (- Vec3.x (camera s))
              (- Vec3.y (camera s))
              (- Vec3.x (camera s) + width)
              (- Vec3.y (camera s) + height)
              width
              height) s in
  let cellWidth :=
    jsMax (Box.width (viewport s1) / 4) (Box.height (viewport s1) / 4) in
  let s2 := set_cell (Size.mk cellWidth (cellWidth / 4 * 5)) s1 in
  set_canvas
    (Box.mk 0
            0
            (Size.width (cell s2) * ofZ (Grid.cols (grid s2)))
            (Size.height (cell s2) * ofZ (Grid.rows (grid s2)))
            (Size.width (cell s2) * ofZ (Grid.cols (grid s2)))
            (Size.height (cell s2) * ofZ (Grid.rows (grid s2)))) s2.

Definition construct (source : list string) (width height : float) : t :=
  let s := resize width height fields in
  set_emojis
    (firstn (Z.to_nat (Grid.cols (grid s) * Grid.rows (grid s))) source) s.

(** *** The render loop *)

Section RenderLoop.
Variable s : t.

Definition rowIndex (i : Z) : float := ofZ (Z.rem i (Grid.cols (grid s))).

Definition colIndex (i : Z) : float :=
  jsFloor (ofZ i / ofZ (Grid.cols (grid s))).

Definition cellMinX (i : Z) : float :=
  Vec3.x (camera s) + rowIndex i * Size.width (cell s).

Definition cellMinY (i : Z) : float :=
  Vec3.y (camera s) + colIndex i * Size.height (cell s).

Definition shiftX (i : Z) : float :=
  if cellMinX i + Size.width (cell s) <? 0
  then Box.width (canvas s)
  else if Box.width (viewport s) + Size.width (cell s) <? cellMinX i
  then - Box.width (canvas s)
  else 0.

Definition shiftY (i : Z) : float :=
  if cellMinY i + Size.height (cell s) <? 0
  then Box.height (canvas s)
  else if Box.height (viewport s) + Size.height (cell s) <? cellMinY i
  then - Box.height (canvas s)
  else 0.

Definition isVisibleX (i : Z) : bool :=
  shiftX i + cellMinX i + Size.width (cell s)
  <? Box.width (viewport s) + Size.width (cell s).

Definition isVisibleY (i : Z) : bool :=
  shiftY i + cellMinY i + Size.height (cell s)
  <? Box.height (viewport s) + Size.height (cell s).

Definition drawCell (i : Z) (e : string) : option Drawn.t :=
  if negb (isVisibleX i) || negb (isVisibleY i) then None
  else
    Some (Drawn.mk i
      (rowIndex i * Size.width (cell s) + shiftX i)
      (colIndex i * Size.height (cell s) + shiftY i)
      (Size.width (cell s))
      (Size.height (cell s))
      (rowIndex i * Size.width (cell s) + shiftX i
         + Box.width (viewport s) / 55)
      (colIndex i * Size.height (cell s) + shiftY i
         + Box.width (viewport s) / 50)
      e
      (rowIndex i * Size.width (cell s) + shiftX i
         + Size.width (cell s) / 2)
      (colIndex i * Size.height (cell s) + shiftY i
         + Size.height (cell s) / 2)).

Fixpoint renderLoop (i : Z) (rest : list string) : list Drawn.t :=
  match rest with
  | [] => []
  | e :: rest' =>
      match drawCell i e with
      | None => renderLoop (i + 1)%Z rest'
      | Some d => d :: renderLoop (i + 1)%Z rest'
      end
  end.

End RenderLoop.

Definition render (timestamp : float) (s : t) : t * list Drawn.t :=
  let s1 := animateVelocity s in
  (s1, renderLoop s1 0%Z (emojis s1)).

(** *** Event handlers *)

Definition onMove (x y : float) (s : t) : t :=
  let m :=
    match mouse s with
    | None => Mouse.mk (Vec2.mk x y) (Vec2.mk x y)
    | Some m0 =>
        Mouse.mk (Vec2.mk (Vec2.x (Mouse.current m0))
                          (Vec2.y (Mouse.current m0)))
                 (Vec2.mk x y)
    end in
  let s1 := set_mouse (Some m) s in
  let s2 :=
    if isPressed s1 then
      let s' :=
        set_velocity
          (Vec2.mk (Vec2.x (Mouse.previous m) - Vec2.x (Mouse.current m))
                   (Vec2.y (Mouse.previous m) - Vec2.y (Mouse.current m)))
          s1 in
      panCamera (Vec2.x (velocity s')) (Vec2.y (velocity s')) s'
    else s1 in
  set_hoveredCell (getCellIndexFromPoint x y s2) s2.

Definition onPress (pressed : bool) (x y : option float) (s : t) : t :=
  let s1 := set_isPressed pressed s in
  if pressed then
    let s2 := set_velocity (Vec2.mk 0 0) s1 in
    match x, y with
    | Some x', Some y' => set_pressStartPoint (Vec2.mk x' y') s2
    | _, _ => s2
    end
  else
    match x, y with
    | Some x', Some _ =>
        if abs (Vec2.x (pressStartPoint s1) - x') <? 10
        then set_velocity (Vec2.mk 0 0) s1
        else s1
    | _, _ => s1
    end.

Definition onClick (x y : float) (s : t) : t :=
  if 10 <? abs (Vec2.x (pressStartPoint s) - x) then s
  else set_activeCell (getCellIndexFromPoint x y s) s.

Definition onWheel (deltaX deltaY : float) (s : t) : t :=
  panCamera (- deltaX) (- deltaY) s.

Definition onResize (width height : float) (s : t) : t :=
  resize width height s.

(** *** Sessions *)

Inductive Op : Type :=
| Render (timestamp : float)
| OnMove (x y : float)
| OnPress (pressed : bool) (x y : option float)
| OnClick (x y : float)
| OnWheel (deltaX deltaY : float)
| OnResize (width height : float).

Definition step (o : Op) (s : t) : t :=
  match o with
  | Render ts => fst (render ts s)
  | OnMove x y => onMove x y s
  | OnPress b x y => onPress b x y s
  | OnClick x y => onClick x y s
  | OnWheel dx dy => onWheel dx dy s
  | OnResize w h => onResize w h s
  end.

Definition run (ops : list Op) (s : t) : t :=
  fold_left (fun acc o => step o acc) ops s.

End CanvasAnimation.

End Double.

(** * Vocabulary of the properties *)

Import CanvasAnimation.

(** ** The state of a session

    The viewport/camera coupling, the geometry [resize] establishes and
    the states a session can reach. *)

(** The viewport rectangle is the camera's window. *)
Definition coupled (s : t) : Prop :=
  Box.minX (viewport s) = - Vec3.x (camera s) /\
  Box.minY (viewport s) = - Vec3.y (camera s) /\
  Box.maxX (viewport s) = Box.minX (viewport s) + Box.width (viewport s) /\
  Box.maxY (viewport s) = Box.minY (viewport s) + Box.height (viewport s).

(** Grid, cell size, canvas extent and glyph list as [resize] and the
    constructor leave them. *)
Record geometry (s : t) : Prop := {
  geo_grid : grid s = Grid.mk 10 10;
  geo_cell :
    Size.height (cell s) = Size.width (cell s) / 4 * 5;
  geo_canvas_width :
    Box.width (canvas s) = Size.width (cell s) * inject_Z (Grid.cols (grid s));
  geo_canvas_height :
    Box.height (canvas s)
    = Size.height (cell s) * inject_Z (Grid.rows (grid s));
  geo_emojis :
    (List.length (emojis s)
     <= Z.to_nat (Grid.cols (grid s) * Grid.rows (grid s)))%nat }.

Record invariant (s : t) : Prop := {
  inv_scale : Vec3.z (camera s) = 1;
  inv_coupled : coupled s;
  inv_geometry : geometry s }.

(** States of a session: the constructed instance and whatever the
    public operations make of it. *)
Inductive reachable : t -> Prop :=
| reach_construct source width height :
    reachable (construct source width height)
| reach_step o s : reachable s -> reachable (step o s).

(** ** Operations other than a press or release *)

Definition isOnPress (o : Op) : bool :=
  match o with
  | OnPress _ _ _ => true
  | _ => false
  end.

(** ** Shifted cells and visibility *)

(** Screen-space edges of cell [i] after its shift. *)
Definition shiftedLeft (s : t) (i : Z) : Q := shiftX s i + cellMinX s i.
Definition shiftedRight (s : t) (i : Z) : Q :=
  shiftedLeft s i + Size.width (cell s).
Definition shiftedTop (s : t) (i : Z) : Q := shiftY s i + cellMinY s i.
Definition shiftedBottom (s : t) (i : Z) : Q :=
  shiftedTop s i + Size.height (cell s).

(** Visibility as the specification words it: both shifted extents
    within [[0, viewport + cellSize)]. *)
Definition extentsWithinViewport (s : t) (i : Z) : Prop :=
  (0 <= shiftedLeft s i /\
   shiftedRight s i < Box.width (viewport s) + Size.width (cell s)) /\
  (0 <= shiftedTop s i /\
   shiftedBottom s i < Box.height (viewport s) + Size.height (cell s)).

(** The frame [render(ts)] from [s] draws the cell with counter [i]. *)
Definition drawsCell (ts : Q) (s : t) (i : Z) : Prop :=
  exists d, In d (snd (render ts s)) /\ Drawn.i d = i.

(** ** Pan sequences *)

(** A sequence of [panCamera] calls, one per delta. *)
Definition pans (deltas : list (Q * Q)) (s : t) : t :=
  fold_left (fun acc d => panCamera (fst d) (snd d) acc) deltas s.

Definition cumulativeX (deltas : list (Q * Q)) : Q :=
  fold_right Qplus 0 (map fst deltas).

Definition cumulativeY (deltas : list (Q * Q)) : Q :=
  fold_right Qplus 0 (map snd deltas).

(** Neither wrap guard of [panCamera] fires in [s]: the negated camera
    position is inside [[0, canvasWidth] x [0, canvasHeight]]. *)
Definition noSnap (s : t) : bool :=
  negb (Qltb (- Vec3.x (camera s)) 0)
  && negb (Qltb (Box.width (canvas s)) (- Vec3.x (camera s)))
  && negb (Qltb (- Vec3.y (camera s)) 0)
  && negb (Qltb (Box.height (canvas s)) (- Vec3.y (camera s))).

(** No call of the sequence starts in a state where a guard fires. *)
Fixpoint noSnapAlong (deltas : list (Q * Q)) (s : t) : bool :=
  match deltas with
  | [] => true
  | d :: rest =>
      noSnap s && noSnapAlong rest (panCamera (fst d) (snd d) s)
  end.

(** Two rectangles with equal coordinates. *)
Definition sameBox (a b : Box.t) : Prop :=
  Box.minX a == Box.minX b /\ Box.minY a == Box.minY b /\
  Box.maxX a == Box.maxX b /\ Box.maxY a == Box.maxY b /\
  Box.width a == Box.width b /\ Box.height a == Box.height b.

(** ** Velocity decay *)

(** What [animateVelocity] does to the velocity while not pressed. *)
Definition decay (v : Vec2.t) : Vec2.t :=
  if Qeq_bool (Vec2.x v) 0 && Qeq_bool (Vec2.y v) 0 then v
  else if Qltb (Qabs (Vec2.x v)) (1 # 10) && Qltb (Qabs (Vec2.y v)) (1 # 10)
  then Vec2.mk 0 0
  else Vec2.mk (Vec2.x v * (9 # 10)) (Vec2.y v * (9 # 10)).

Fixpoint decays (n : nat) (v : Vec2.t) : Vec2.t :=
  match n with
  | O => v
  | S n' => decays n' (decay v)
  end.

(** The largest magnitude that [k] decays bring under the cutoff:
    [0.1 * (10/9)^k]. *)
Fixpoint reach (k : nat) : Q :=
  match k with
  | O => 1 # 10
  | S k' => reach k' * (10 # 9)
  end.

(** A number of calls after which any velocity has come to rest. *)
Definition restBound (v : Vec2.t) : nat :=
  S (Z.to_nat (Qceiling (90 * Qmax (Qabs (Vec2.x v)) (Qabs (Vec2.y v))))).

(** ** Cells, sizes and frames *)

(** The cell width is the one [resize] computes from the viewport. *)
Definition cellFromViewport (s : t) : Prop :=
  Size.width (cell s)
  = Qmax (Box.width (viewport s) / 4) (Box.height (viewport s) / 4).

(** A whole number of pixels, at most 10^12 in magnitude.  On such
    values the source's double arithmetic (sums, differences, products
    with a small count, the quotient under [Math.floor]) gives the same
    discrete results as exact arithmetic. *)
Definition wholePixels (q : Q) : bool :=
  Qeq_bool q (inject_Z (Qfloor q)) && Qle_bool (Qabs q) 1000000000000.

(** A cell reference of the binary64 engine that is, component by
    component, NaN or a cell of the 10 x 10 grid. *)
Definition gridCellOrNaN (c : Double.CellRef.t) : Prop :=
  (forall z, Double.CellRef.col c = Some z -> (0 <= z < 10)%Z) /\
  (forall z, Double.CellRef.row c = Some z -> (0 <= z < 10)%Z) /\
  Double.CellRef.index c
  = match Double.CellRef.col c, Double.CellRef.row c with
    | Some a, Some b => Some (a + b * 10)%Z
    | _, _ => None
    end.

(** The screen-space rectangle of a drawn cell contains the point. *)
Definition drawnOver (s : t) (d : Drawn.t) (px py : Q) : Prop :=
  Vec3.x (camera s) + Drawn.rectX d <= px /\
  px < Vec3.x (camera s) + Drawn.rectX d + Drawn.rectW d /\
  Vec3.y (camera s) + Drawn.rectY d <= py /\
  py < Vec3.y (camera s) + Drawn.rectY d + Drawn.rectH d.

(** * Properties *)

(** ** Comparisons *)

Lemma Qltb_lt (a b : Q) : Qltb a b = true <-> a < b.
Proof. unfold Qltb, Qlt. apply Z.ltb_lt. Qed.

Lemma Qltb_ge (a b : Q) : Qltb a b = false <-> b <= a.
Proof. unfold Qltb, Qle. rewrite Z.ltb_ge. reflexivity. Qed.

(** ** Frame lemmas: what each method leaves alone *)

Arguments panCamera : simpl never.
Arguments getCellIndexFromPoint : simpl never.

Ltac split_ifs :=
  repeat (match goal with
          | |- context [if ?b then _ else _] => destruct b eqn:?
          | |- context [match ?o with Some _ => _ | None => _ end] =>
              destruct o
          end; cbv iota).

Ltac unfold_pan :=
  unfold panCamera, refreshViewport, panCameraY, panCameraX,
    set_camera_y, set_camera_x, set_camera, set_viewport.

(** Whatever branch each axis takes, [panCamera] assigns [camera.x],
    then [camera.y], then the viewport rectangle. *)
Lemma panCamera_shape dx dy s :
  exists cx cy,
    panCamera dx dy s
    = refreshViewport (set_camera_y cy (set_camera_x cx s)).
Proof.
  unfold panCamera.
  assert (Hx : exists cx, panCameraX dx s = set_camera_x cx s).
  { unfold panCameraX. split_ifs; eexists; reflexivity. }
  destruct Hx as [cx ->].
  assert (Hy : exists cy,
             panCameraY dy (set_camera_x cx s)
             = set_camera_y cy (set_camera_x cx s)).
  { unfold panCameraY. split_ifs; eexists; reflexivity. }
  destruct Hy as [cy ->]. eauto.
Qed.

Lemma panCamera_scale dx dy s :
  Vec3.z (camera (panCamera dx dy s)) = Vec3.z (camera s).
Proof. destruct (panCamera_shape dx dy s) as (cx & cy & ->). reflexivity. Qed.

Lemma panCamera_velocity dx dy s :
  velocity (panCamera dx dy s) = velocity s.
Proof. destruct (panCamera_shape dx dy s) as (cx & cy & ->). reflexivity. Qed.

Lemma panCamera_isPressed dx dy s :
  isPressed (panCamera dx dy s) = isPressed s.
Proof. destruct (panCamera_shape dx dy s) as (cx & cy & ->). reflexivity. Qed.

Lemma panCamera_pressStartPoint dx dy s :
  pressStartPoint (panCamera dx dy s) = pressStartPoint s.
Proof. destruct (panCamera_shape dx dy s) as (cx & cy & ->). reflexivity. Qed.

Lemma panCamera_geometry dx dy s :
  grid (panCamera dx dy s) = grid s /\
  cell (panCamera dx dy s) = cell s /\
  canvas (panCamera dx dy s) = canvas s /\
  emojis (panCamera dx dy s) = emojis s /\
  Box.width (viewport (panCamera dx dy s)) = Box.width (viewport s) /\
  Box.height (viewport (panCamera dx dy s)) = Box.height (viewport s).
Proof.
  destruct (panCamera_shape dx dy s) as (cx & cy & ->). repeat split.
Qed.

Lemma animateVelocity_isPressed s :
  isPressed (animateVelocity s) = isPressed s.
Proof.
  unfold animateVelocity.
  split_ifs; cbn; rewrite ?panCamera_isPressed; congruence.
Qed.

Lemma animateVelocity_scale s :
  Vec3.z (camera (animateVelocity s)) = Vec3.z (camera s).
Proof.
  unfold animateVelocity.
  split_ifs; cbn; rewrite ?panCamera_scale; congruence.
Qed.

(** ** The state invariant of a session *)

Lemma reachable_run ops s : reachable s -> reachable (run ops s).
Proof.
  revert s. induction ops as [|o ops IH]; intros s Hs; cbn; [exact Hs|].
  apply IH. now constructor.
Qed.

Lemma panCamera_coupled dx dy s : coupled (panCamera dx dy s).
Proof.
  destruct (panCamera_shape dx dy s) as (cx & cy & ->).
  unfold coupled. cbn. repeat split.
Qed.

Lemma resize_coupled w h s : coupled (resize w h s).
Proof. unfold coupled, resize. cbn. repeat split. Qed.

Lemma panCamera_invariant dx dy s :
  invariant s -> invariant (panCamera dx dy s).
Proof.
  intros [Hz Hc [Hg Hcell Hw Hh He]].
  destruct (panCamera_geometry dx dy s) as (Eg & Ec & Ev & Ee & _).
  split; [| apply panCamera_coupled |].
  - now rewrite panCamera_scale.
  - split; rewrite ?Eg, ?Ec, ?Ev, ?Ee; assumption.
Qed.

Lemma resize_invariant w h s :
  Vec3.z (camera s) = 1 -> grid s = Grid.mk 10 10 ->
  (List.length (emojis s) <= 100)%nat ->
  invariant (resize w h s).
Proof.
  intros Hz Hg He.
  split; [exact Hz | apply resize_coupled |].
  split; cbn; try reflexivity; try exact Hg.
  rewrite Hg. exact He.
Qed.

Lemma animateVelocity_invariant s :
  invariant s -> invariant (animateVelocity s).
Proof.
  intros Hs. unfold animateVelocity.
  split_ifs; try exact Hs.
  - destruct Hs as [Hz Hc Hg]. split; [exact Hz | exact Hc |].
    destruct Hg. split; assumption.
  - cbv zeta.
    pose proof (panCamera_invariant (Vec2.x (velocity s))
                  (Vec2.y (velocity s)) s Hs) as [Hz Hc Hg].
    split; [exact Hz | exact Hc |]. destruct Hg. split; assumption.
Qed.

Lemma construct_invariant source w h : invariant (construct source w h).
Proof.
  unfold construct.
  assert (H : invariant (resize w h fields)).
  { apply resize_invariant; cbn; try reflexivity. lia. }
  destruct H as [Hz Hc [Hg Hcell Hw Hh He]].
  split; [exact Hz | exact Hc |].
  split; try assumption.
  cbn. apply firstn_le_length.
Qed.

Lemma step_invariant o s : invariant s -> invariant (step o s).
Proof.
  intros Hs. destruct o as [ts|x y|b x y|x y|dx dy|w h]; cbn.
  - apply animateVelocity_invariant, Hs.
  - unfold onMove.
    set (m := match mouse s with None => _ | Some _ => _ end).
    assert (H1 : invariant (set_mouse (Some m) s)).
    { destruct Hs as [Hz Hc [Hg Hcell Hw Hh He]].
      split; [exact Hz | exact Hc |]. split; assumption. }
    cbv zeta.
    match goal with
    | |- invariant (set_hoveredCell _ ?s2) => assert (H2 : invariant s2)
    end.
    { destruct (isPressed (set_mouse (Some m) s)); [| exact H1].
      apply panCamera_invariant.
      destruct H1 as [Hz Hc [Hg Hcell Hw Hh He]].
      split; [exact Hz | exact Hc |]. split; assumption. }
    destruct H2 as [Hz Hc [Hg Hcell Hw Hh He]].
    split; [exact Hz | exact Hc |]. split; assumption.
  - destruct Hs as [Hz Hc [Hg Hcell Hw Hh He]].
    unfold onPress. split_ifs;
      (split; [exact Hz | exact Hc |]; split; assumption).
  - destruct Hs as [Hz Hc [Hg Hcell Hw Hh He]].
    unfold onClick. split_ifs;
      (split; [exact Hz | exact Hc |]; split; assumption).
  - apply panCamera_invariant, Hs.
  - destruct Hs as [Hz Hc [Hg Hcell Hw Hh He]].
    apply resize_invariant; try assumption.
    rewrite Hg in He. exact He.
Qed.

Lemma reachable_invariant s : reachable s -> invariant s.
Proof.
  induction 1 as [source w h | o s _ IH].
  - apply construct_invariant.
  - apply step_invariant, IH.
Qed.

(** ** Camera, viewport and scale *)

Lemma step_scale o s : Vec3.z (camera (step o s)) = Vec3.z (camera s).
Proof.
  destruct o as [ts|x y|b x y|x y|dx dy|w h]; cbn.
  - apply animateVelocity_scale.
  - unfold onMove. cbv zeta. cbn.
    destruct (isPressed s); [| reflexivity].
    rewrite panCamera_scale. reflexivity.
  - unfold onPress. split_ifs; reflexivity.
  - unfold onClick. split_ifs; reflexivity.
  - apply panCamera_scale.
  - reflexivity.
Qed.

(** C7.  Camera/viewport coupling: [panCamera] and [resize] leave the
    viewport rectangle at [minX = -camera.x], [minY = -camera.y],
    [maxX = minX + width], [maxY = minY + height] whatever the state they
    start from; so does [onWheel]; and the rectangle has that form after
    every operation of every session, including the operations that do
    not move the camera. *)
Theorem camera_viewport_coupling :
  (forall dx dy s, coupled (panCamera dx dy s)) /\
  (forall w h s, coupled (resize w h s)) /\
  (forall dx dy s, coupled (onWheel dx dy s)) /\
  (forall w h s, coupled (onResize w h s)) /\
  (forall source w h ops, coupled (run ops (construct source w h))).
Proof.
  split; [exact panCamera_coupled |].
  split; [exact resize_coupled |].
  split; [intros; apply panCamera_coupled |].
  split; [intros; apply resize_coupled |].
  intros source w h ops.
  apply inv_coupled, reachable_invariant, reachable_run, reach_construct.
Qed.

(** C9.  Scale invariant: no public operation changes [camera.z]; the
    constructor leaves it at its initialiser 1; hence after any sequence
    of public operations it is 1, and strictly positive. *)
Theorem scale_never_changes :
  (forall o s, Vec3.z (camera (step o s)) = Vec3.z (camera s)) /\
  (forall source w h, Vec3.z (camera (construct source w h)) = 1) /\
  (forall source w h ops,
      Vec3.z (camera (run ops (construct source w h))) = 1 /\
      0 < Vec3.z (camera (run ops (construct source w h)))).
Proof.
  split; [exact step_scale |].
  split; [reflexivity |].
  intros source w h ops.
  assert (E : Vec3.z (camera (run ops (construct source w h))) = 1).
  { apply inv_scale, reachable_invariant, reachable_run, reach_construct. }
  split; [exact E |]. rewrite E. reflexivity.
Qed.

(** C8.  Resize idempotence: a second [onResize(w, h)] with the same
    arguments changes nothing: the whole state, and so the viewport
    rectangle, the cell size and the canvas extent, is the one the first
    call produced.  Positivity of [w] and [h] is not needed. *)
Theorem onResize_idempotent (w h : Q) (s : t) :
  onResize w h (onResize w h s) = onResize w h s /\
  viewport (onResize w h (onResize w h s)) = viewport (onResize w h s) /\
  cell (onResize w h (onResize w h s)) = cell (onResize w h s) /\
  canvas (onResize w h (onResize w h s)) = canvas (onResize w h s).
Proof.
  assert (E : onResize w h (onResize w h s) = onResize w h s).
  { unfold onResize, resize. reflexivity. }
  rewrite E. repeat split.
Qed.

(** ** Press, drag and release *)

Lemma animateVelocity_pressStartPoint s :
  pressStartPoint (animateVelocity s) = pressStartPoint s.
Proof.
  unfold animateVelocity.
  split_ifs; cbn; rewrite ?panCamera_pressStartPoint; reflexivity.
Qed.

Lemma step_pressStartPoint o s :
  isOnPress o = false -> pressStartPoint (step o s) = pressStartPoint s.
Proof.
  destruct o as [ts|x y|b x y|x y|dx dy|w h]; cbn; intros Ho;
    try discriminate.
  - apply animateVelocity_pressStartPoint.
  - unfold onMove. cbv zeta. cbn.
    destruct (isPressed s); [| reflexivity].
    rewrite panCamera_pressStartPoint. reflexivity.
  - unfold onClick. split_ifs; reflexivity.
  - apply panCamera_pressStartPoint.
  - reflexivity.
Qed.

Lemma run_pressStartPoint ops s :
  forallb (fun o => negb (isOnPress o)) ops = true ->
  pressStartPoint (run ops s) = pressStartPoint s.
Proof.
  revert s. induction ops as [|o ops IH]; intros s H; cbn in *.
  - reflexivity.
  - apply andb_prop in H. destruct H as [Ho Hrest].
    rewrite IH by exact Hrest.
    apply step_pressStartPoint. now destruct (isOnPress o).
Qed.

(** C5.  Tap versus drag.  A press at [(x0, y0)], then any operations
    other than a press or release (moves, frames, wheel, ...), then a
    release at [(x, y)]: when [|x0 - x| < 10] the velocity after the
    release is exactly [(0, 0)]; when [|x0 - x| >= 10] it is the velocity
    the state had just before the release.  [y0] and [y] are arbitrary:
    only the horizontal displacement decides. *)
Theorem tap_vs_drag (s : t) (x0 y0 x y : Q) (between : list Op) :
  forallb (fun o => negb (isOnPress o)) between = true ->
  let pressed := onPress true (Some x0) (Some y0) s in
  let dragged := run between pressed in
  let released := onPress false (Some x) (Some y) dragged in
  pressStartPoint pressed = Vec2.mk x0 y0 /\
  velocity pressed = Vec2.mk 0 0 /\
  (Qabs (x0 - x) < 10 -> velocity released = Vec2.mk 0 0) /\
  (10 <= Qabs (x0 - x) -> velocity released = velocity dragged).
Proof.
  intros Hb pressed dragged released.
  assert (Hp : pressStartPoint dragged = Vec2.mk x0 y0).
  { unfold dragged. rewrite run_pressStartPoint by exact Hb. reflexivity. }
  split; [reflexivity |]. split; [reflexivity |].
  unfold released, onPress. cbn. rewrite Hp. cbn.
  split; intros Hd.
  - apply Qltb_lt in Hd. rewrite Hd. reflexivity.
  - apply Qltb_ge in Hd. rewrite Hd. reflexivity.
Qed.

Lemma tap_vs_drag_witness :
  let s0 := construct [] 400 400 in
  let dragged :=
    run [OnMove 97 100; OnMove 60 100; Render 16]
        (onPress true (Some 100) (Some 100) s0) in
  velocity (onPress false (Some 105) (Some 300) dragged) = Vec2.mk 0 0 /\
  velocity (onPress false (Some 60) (Some 100) dragged) = velocity dragged.
Proof.
  split.
  - destruct (tap_vs_drag (construct [] 400 400) 100 100 105 300
                [OnMove 97 100; OnMove 60 100; Render 16] eq_refl)
      as (_ & _ & Htap & _).
    apply Htap. reflexivity.
  - destruct (tap_vs_drag (construct [] 400 400) 100 100 60 100
                [OnMove 97 100; OnMove 60 100; Render 16] eq_refl)
      as (_ & _ & _ & Hdrag).
    apply Hdrag. discriminate.
Defined.

(** C10.  A release without coordinates: when [x] or [y] is omitted,
    [onPress(false, ...)] only clears [isPressed]; in particular it leaves
    the velocity as it was, whatever the press start point, the velocity
    and the other argument are. *)
Theorem release_without_coordinates (s : t) :
  (forall y, onPress false None y s = set_isPressed false s) /\
  (forall x, onPress false x None s = set_isPressed false s) /\
  (forall y, velocity (onPress false None y s) = velocity s) /\
  (forall x, velocity (onPress false x None s) = velocity s).
Proof.
  split; [intros y; reflexivity |].
  split; [intros [x|]; reflexivity |].
  split; [intros y; reflexivity |].
  intros [x|]; reflexivity.
Qed.

(** ** The cell addressor *)

Lemma Qfloor_unique (q : Q) (n : Z) :
  inject_Z n <= q -> q < inject_Z (n + 1) -> Qfloor q = n.
Proof.
  intros Hlo Hhi.
  apply Z.le_antisymm.
  - apply Z.lt_succ_r. rewrite Zlt_Qlt.
    apply Qle_lt_trans with q; [apply Qfloor_le | exact Hhi].
  - rewrite <- (Qfloor_Z n). apply Qfloor_resp_le, Hlo.
Qed.

(** [c >= 0 ? c : n + c] on a truncated remainder is the mathematical
    modulo. *)
Lemma wrap_rem_bounds (a n : Z) :
  (0 < n)%Z ->
  (0 <= (if (0 <=? Z.rem a n)%Z then Z.rem a n else n + Z.rem a n) < n)%Z.
Proof.
  intros Hn.
  destruct (Z.le_gt_cases 0 a) as [Ha | Ha].
  - pose proof (Z.rem_bound_pos_pos a n Hn Ha) as Hb.
    destruct (Z.leb_spec 0 (Z.rem a n)); lia.
  - pose proof (Z.rem_bound_pos_neg a n Hn (Z.lt_le_incl _ _ Ha)) as Hb.
    destruct (Z.leb_spec 0 (Z.rem a n)); lia.
Qed.

Lemma wrap_rem_mod (a n : Z) :
  (0 < n)%Z ->
  (if (0 <=? Z.rem a n)%Z then Z.rem a n else n + Z.rem a n)%Z
  = (a mod n)%Z.
Proof.
  intros Hn.
  pose proof (wrap_rem_bounds a n Hn) as Hb.
  pose proof (Z.quot_rem' a n) as Hq.
  destruct (Z.leb_spec 0 (Z.rem a n)).
  - apply Z.mod_unique_pos with (q := (a ÷ n)%Z); lia.
  - apply Z.mod_unique_pos with (q := (a ÷ n - 1)%Z); lia.
Qed.

(** ** The render loop and the addressor *)

Lemma drawCell_Some s i e d :
  drawCell s i e = Some d ->
  isVisibleX s i = true /\ isVisibleY s i = true /\
  Drawn.i d = i /\
  Drawn.glyph d = e /\
  Drawn.rectX d = inject_Z (rowIndex s i) * Size.width (cell s) + shiftX s i /\
  Drawn.rectY d = inject_Z (colIndex s i) * Size.height (cell s) + shiftY s i /\
  Drawn.rectW d = Size.width (cell s) /\
  Drawn.rectH d = Size.height (cell s).
Proof.
  unfold drawCell.
  destruct (isVisibleX s i), (isVisibleY s i); cbn; try discriminate.
  intros [= <-]. cbn. repeat split.
Qed.

Lemma drawCell_visible s i e :
  isVisibleX s i = true -> isVisibleY s i = true ->
  exists d, drawCell s i e = Some d.
Proof.
  intros Hx Hy. unfold drawCell. rewrite Hx, Hy. cbn. eexists. reflexivity.
Qed.

(** The loop draws exactly the cells whose body reaches the drawing
    calls, each with its own counter and glyph. *)
Lemma renderLoop_In s d rest :
  forall i0,
    In d (renderLoop s i0 rest) <->
    exists k e, nth_error rest k = Some e /\
                drawCell s (i0 + Z.of_nat k) e = Some d.
Proof.
  induction rest as [|e rest IH]; intros i0; cbn [renderLoop].
  - split; [intros [] |]. intros (k & e & Hk & _). now destruct k.
  - assert (Hshift : forall k,
               (i0 + 1 + Z.of_nat k = i0 + Z.of_nat (S k))%Z) by (intros; lia).
    split.
    + intros Hin.
      destruct (drawCell s i0 e) as [d0|] eqn:Hd.
      * destruct Hin as [<- | Hin].
        -- exists 0%nat, e. cbn. rewrite Z.add_0_r. auto.
        -- apply IH in Hin. destruct Hin as (k & e' & Hk & Hdk).
           exists (S k), e'. rewrite <- Hshift. auto.
      * apply IH in Hin. destruct Hin as (k & e' & Hk & Hdk).
        exists (S k), e'. rewrite <- Hshift. auto.
    + intros (k & e' & Hk & Hdk).
      destruct k as [|k].
      * cbn in Hk. injection Hk as ->. rewrite Z.add_0_r in Hdk.
        rewrite Hdk. now left.
      * cbn in Hk. rewrite <- Hshift in Hdk.
        assert (Hin : In d (renderLoop s (i0 + 1) rest))
          by (apply IH; eauto).
        destruct (drawCell s i0 e); [now right | exact Hin].
Qed.

Lemma shiftX_cases s i :
  shiftX s i = Box.width (canvas s) \/
  shiftX s i = - Box.width (canvas s) \/
  shiftX s i = 0.
Proof. unfold shiftX. split_ifs; auto. Qed.

Lemma shiftY_cases s i :
  shiftY s i = Box.height (canvas s) \/
  shiftY s i = - Box.height (canvas s) \/
  shiftY s i = 0.
Proof. unfold shiftY. split_ifs; auto. Qed.

(** The centre of a cell of size [w] whose near edge is at [m * w] lies
    in cell [m]. *)
Lemma floor_center (q w : Q) (m : Z) :
  0 < w -> q == inject_Z m * w + w / 2 -> Qfloor (q / w) = m.
Proof.
  intros Hw Hq.
  assert (E : q / w == inject_Z m + (1 # 2)).
  { rewrite Hq. field. intros H0. rewrite H0 in Hw. discriminate. }
  rewrite E. apply Qfloor_unique.
  - lra.
  - rewrite inject_Z_plus. change (inject_Z 1) with 1. lra.
Qed.

(** One axis of the agreement: the centre of the rectangle drawn for
    logical position [r], shifted by a whole canvas extent or not at
    all, is addressed as [r]. *)
Lemma address_axis (cam w shift : Q) (n r : Z) :
  0 < w -> (0 <= r < n)%Z ->
  shift = w * inject_Z n \/ shift = - (w * inject_Z n) \/ shift = 0 ->
  let c :=
    Z.rem (Qfloor (((cam + (inject_Z r * w + shift) + w / 2) / 1 - cam) / w))
          n in
  (if (0 <=? c)%Z then c else n + c)%Z = r.
Proof.
  intros Hw Hr Hs c. unfold c.
  rewrite wrap_rem_mod by lia.
  destruct Hs as [-> | [-> | ->]].
  - rewrite (floor_center _ w (r + 1 * n)) by
      (try exact Hw; rewrite inject_Z_plus, inject_Z_mult; field).
    rewrite Z.mod_add by lia. apply Z.mod_small, Hr.
  - rewrite (floor_center _ w (r + (-1) * n)) by
      (try exact Hw; rewrite inject_Z_plus, inject_Z_mult; field).
    rewrite Z.mod_add by lia. apply Z.mod_small, Hr.
  - rewrite (floor_center _ w r) by (try exact Hw; field).
    apply Z.mod_small, Hr.
Qed.

Lemma loop_indices s i :
  invariant s -> (0 <= i < Z.of_nat (List.length (emojis s)))%Z ->
  rowIndex s i = (i mod 10)%Z /\ colIndex s i = (i / 10)%Z /\
  (0 <= rowIndex s i < Grid.cols (grid s))%Z /\
  (0 <= colIndex s i < Grid.rows (grid s))%Z.
Proof.
  intros [_ _ [Hg _ _ _ He]] Hi.
  unfold rowIndex, colIndex. rewrite Hg in *.
  cbn [Grid.cols Grid.rows] in *.
  change (Z.to_nat (10 * 10)) with 100%nat in He.
  rewrite <- Zdiv_Qdiv. rewrite Z.rem_mod_nonneg by lia.
  pose proof (Z.mod_pos_bound i 10 eq_refl).
  assert (0 <= i / 10 < 10)%Z.
  { split; [apply Z.div_pos; lia | apply Z.div_lt_upper_bound; lia]. }
  repeat split; lia.
Qed.

(** C1, for ordinary magnitudes.  In a session state at scale 1 whose
    camera is within 10^9 of the origin on both axes and whose cell is
    between 1 and 10^6 wide, for every cell the frame draws,
    [getCellIndexFromPoint] at the screen-space centre of the drawn
    rectangle, i.e. at the translation [camera] plus the rectangle's
    corner plus half its width and height, returns the loop counter of
    that cell as [index], with [col = i % cols] and
    [row = floor(i / cols)].

    The proof is in exact arithmetic, where the centre lies half a cell
    from either edge.  The bounds are what doubles need: with them the
    rounding of the source's additions and of its division, relative
    [2^-53] of values below [2^31], moves the quotient by less than
    [10^-6], far from the half cell that would change its floor.
    Without them the agreement fails in binary64; see
    [Double.CanvasAnimation] and the last section. *)
Theorem addressor_agrees_with_iterator (s : t) (ts : Q) (d : Drawn.t) :
  reachable s ->
  let s' := fst (render ts s) in
  Vec3.z (camera s') = 1 ->
  Qabs (Vec3.x (camera s')) <= 1000000000 ->
  Qabs (Vec3.y (camera s')) <= 1000000000 ->
  1 <= Size.width (cell s') <= 1000000 ->
  In d (snd (render ts s)) ->
  let c :=
    getCellIndexFromPoint
      (Vec3.x (camera s') + Drawn.rectX d + Drawn.rectW d / 2)
      (Vec3.y (camera s') + Drawn.rectY d + Drawn.rectH d / 2) s' in
  CellRef.index c = Drawn.i d /\
  CellRef.col c = Z.rem (Drawn.i d) (Grid.cols (grid s')) /\
  CellRef.row c =
    Qfloor (inject_Z (Drawn.i d) / inject_Z (Grid.cols (grid s'))).
Proof.
  intros Hs s' Hz _ _ [Hw1 _] Hin c.
  assert (Hinv : invariant (animateVelocity s))
    by apply animateVelocity_invariant, reachable_invariant, Hs.
  subst c s'. unfold render in *. cbn [fst snd] in *.
  set (s' := animateVelocity s) in *.
  set (c := getCellIndexFromPoint _ _ s').
  apply renderLoop_In in Hin. destruct Hin as (k & e & Hk & Hd).
  rewrite Z.add_0_l in Hd.
  assert (Hi : (0 <= Z.of_nat k < Z.of_nat (List.length (emojis s')))%Z).
  { split; [lia |]. apply Nat2Z.inj_lt, nth_error_Some. congruence. }
  destruct (loop_indices s' _ Hinv Hi) as (Er & Ec & Hr & Hc).
  apply drawCell_Some in Hd.
  destruct Hd as (_ & _ & Ei & _ & Ex & Ey & Ewd & Ehd).
  destruct Hinv as [_ _ [Hg Hcell HW HH _]].
  assert (Hw : 0 < Size.width (cell s')) by lra.
  assert (Hh : 0 < Size.height (cell s')).
  { rewrite Hcell.
    assert (E : Size.width (cell s') / 4 * 5
                == Size.width (cell s') * (5 # 4)) by field.
    rewrite E. lra. }
  assert (Hcol : CellRef.col c = rowIndex s' (Z.of_nat k)).
  { unfold c, getCellIndexFromPoint, screenToCanvas.
    cbn [CellRef.col Vec2.x]. rewrite Hz, Ex, Ewd.
    apply address_axis; [exact Hw | exact Hr |].
    rewrite <- HW. apply shiftX_cases. }
  assert (Hrow : CellRef.row c = colIndex s' (Z.of_nat k)).
  { unfold c, getCellIndexFromPoint, screenToCanvas.
    cbn [CellRef.row Vec2.y]. rewrite Hz, Ey, Ehd.
    apply address_axis; [exact Hh | exact Hc |].
    rewrite <- HH. apply shiftY_cases. }
  rewrite Ei.
  split; [| split; [exact Hcol | exact Hrow]].
  change (CellRef.index c)
    with (CellRef.col c + CellRef.row c * Grid.cols (grid s'))%Z.
  rewrite Hcol, Hrow, Er, Ec, Hg. cbn [Grid.cols].
  pose proof (Z.div_mod (Z.of_nat k) 10). lia.
Qed.

Lemma addressor_agrees_with_iterator_witness :
  let s := onWheel (-850) 0 (construct ["a"; "b"; "c"]%string 400 400) in
  let s' := fst (render 0 s) in
  let d := nth 1 (snd (render 0 s)) (Drawn.mk 0 0 0 0 0 0 0 "" 0 0) in
  (Drawn.i d = 1%Z /\ Qred (Drawn.rectX d) = 1100 /\
   Qred (Vec3.x (camera s')) = -850) /\
  CellRef.index
    (getCellIndexFromPoint
       (Vec3.x (camera s') + Drawn.rectX d + Drawn.rectW d / 2)
       (Vec3.y (camera s') + Drawn.rectY d + Drawn.rectH d / 2) s')
  = Drawn.i d.
Proof.
  intros s s' d. split; [vm_compute; auto |].
  assert (Hs : reachable s)
    by apply (reach_step (OnWheel (-850) 0)), reach_construct.
  assert (Hz : Vec3.z (camera s') = 1) by (vm_compute; reflexivity).
  assert (Hx : Qabs (Vec3.x (camera s')) <= 1000000000)
    by (vm_compute; discriminate).
  assert (Hy : Qabs (Vec3.y (camera s')) <= 1000000000)
    by (vm_compute; discriminate).
  assert (Hw : 1 <= Size.width (cell s') <= 1000000)
    by (vm_compute; split; discriminate).
  assert (Hin : In d (snd (render 0 s)))
    by (vm_compute; right; left; reflexivity).
  exact (proj1 (addressor_agrees_with_iterator s 0 d Hs Hz Hx Hy Hw Hin)).
Defined.

(** ** Which cells the frame draws *)

Lemma isVisibleX_spec s i :
  isVisibleX s i = true <->
  shiftedRight s i < Box.width (viewport s) + Size.width (cell s).
Proof. unfold isVisibleX, shiftedRight, shiftedLeft. apply Qltb_lt. Qed.

Lemma isVisibleY_spec s i :
  isVisibleY s i = true <->
  shiftedBottom s i < Box.height (viewport s) + Size.height (cell s).
Proof. unfold isVisibleY, shiftedBottom, shiftedTop. apply Qltb_lt. Qed.

Lemma drawsCell_iff ts s i :
  let s' := fst (render ts s) in
  drawsCell ts s i <->
  (0 <= i < Z.of_nat (List.length (emojis s')))%Z /\
  isVisibleX s' i = true /\ isVisibleY s' i = true.
Proof.
  unfold drawsCell, render. cbn [fst snd].
  set (s' := animateVelocity s). split.
  - intros (d & Hin & <-).
    apply renderLoop_In in Hin. destruct Hin as (k & e & Hk & Hd).
    rewrite Z.add_0_l in Hd.
    apply drawCell_Some in Hd. destruct Hd as (Hx & Hy & -> & _).
    repeat split; try assumption; try lia.
    apply Nat2Z.inj_lt, nth_error_Some. congruence.
  - intros ([Hi0 Hi1] & Hx & Hy).
    destruct (nth_error (emojis s') (Z.to_nat i)) as [e|] eqn:Hk.
    + destruct (drawCell_visible s' i e Hx Hy) as [d Hd].
      exists d. split.
      * apply renderLoop_In. exists (Z.to_nat i), e.
        rewrite Z.add_0_l, Z2Nat.id by exact Hi0. auto.
      * apply drawCell_Some in Hd. tauto.
    + apply nth_error_None in Hk. lia.
Qed.

(** C2, as the code has it.  The shift of a cell is [+canvasWidth] when
    its right edge is left of screen-x 0, [-canvasWidth] when its left
    edge is right of viewport width plus one cell width, else 0 (the
    same vertically); and the frame draws cell [i] if and only if [i] is
    the index of a glyph and, after the shift, the cell's right edge is
    strictly below viewport width plus cell width and its bottom edge
    strictly below viewport height plus cell height.  The drawn
    rectangle is the shifted cell: its screen-space right and bottom
    edges satisfy those two bounds.  No lower bound is part of the
    test. *)
Theorem drawn_iff_below_upper_bounds (ts : Q) (s : t) (i : Z) :
  let s' := fst (render ts s) in
  let w := Size.width (cell s') in
  let h := Size.height (cell s') in
  ((cellMinX s' i + w < 0 -> shiftX s' i = Box.width (canvas s')) /\
   (0 <= cellMinX s' i + w -> Box.width (viewport s') + w < cellMinX s' i ->
    shiftX s' i = - Box.width (canvas s')) /\
   (0 <= cellMinX s' i + w -> cellMinX s' i <= Box.width (viewport s') + w ->
    shiftX s' i = 0)) /\
  ((cellMinY s' i + h < 0 -> shiftY s' i = Box.height (canvas s')) /\
   (0 <= cellMinY s' i + h -> Box.height (viewport s') + h < cellMinY s' i ->
    shiftY s' i = - Box.height (canvas s')) /\
   (0 <= cellMinY s' i + h -> cellMinY s' i <= Box.height (viewport s') + h ->
    shiftY s' i = 0)) /\
  (drawsCell ts s i <->
   (0 <= i < Z.of_nat (List.length (emojis s')))%Z /\
   shiftedRight s' i < Box.width (viewport s') + w /\
   shiftedBottom s' i < Box.height (viewport s') + h) /\
  (forall d, In d (snd (render ts s)) -> Drawn.i d = i ->
     Vec3.x (camera s') + Drawn.rectX d + Drawn.rectW d
       < Box.width (viewport s') + w /\
     Vec3.y (camera s') + Drawn.rectY d + Drawn.rectH d
       < Box.height (viewport s') + h).
Proof.
  intros s' w h.
  assert (Hiff := drawsCell_iff ts s i). cbv zeta in Hiff. fold s' in Hiff.
  rewrite isVisibleX_spec, isVisibleY_spec in Hiff. fold w h in Hiff.
  split; [| split; [| split; [exact Hiff |]]].
  - unfold shiftX. fold w. repeat split.
    + intros H. apply Qltb_lt in H. now rewrite H.
    + intros H1 H2. apply Qltb_ge in H1. apply Qltb_lt in H2.
      now rewrite H1, H2.
    + intros H1 H2. apply Qltb_ge in H1, H2. now rewrite H1, H2.
  - unfold shiftY. fold h. repeat split.
    + intros H. apply Qltb_lt in H. now rewrite H.
    + intros H1 H2. apply Qltb_ge in H1. apply Qltb_lt in H2.
      now rewrite H1, H2.
    + intros H1 H2. apply Qltb_ge in H1, H2. now rewrite H1, H2.
  - intros d Hin Hi.
    unfold render in Hin. cbn [snd] in Hin.
    change (animateVelocity s) with s' in Hin.
    apply renderLoop_In in Hin. destruct Hin as (k & e & _ & Hd).
    apply drawCell_Some in Hd.
    destruct Hd as (Hx & Hy & Ei & _ & -> & -> & -> & ->).
    rewrite Ei in Hi. rewrite Hi in *.
    apply isVisibleX_spec in Hx. apply isVisibleY_spec in Hy.
    unfold shiftedRight, shiftedLeft, cellMinX in Hx.
    unfold shiftedBottom, shiftedTop, cellMinY in Hy.
    fold w h in Hx, Hy |- *. split; lra.
Qed.

Lemma drawn_iff_below_upper_bounds_witness :
  let s := onWheel (-850) 0 (construct ["a"]%string 400 400) in
  let s' := fst (render 0 s) in
  shiftX s' 0 = Box.width (canvas s') /\
  shiftY s' 0 = 0 /\
  drawsCell 0 s 0.
Proof.
  intros s s'.
  destruct (drawn_iff_below_upper_bounds 0 s 0)
    as ((Hx & _) & (_ & _ & Hy) & Hiff & _).
  split; [apply Hx; reflexivity |].
  split; [apply Hy; discriminate |].
  apply Hiff. repeat split; try reflexivity; try discriminate.
Defined.

(** C2, as the specification words it, fails: after the camera has
    moved 50 pixels, cell 0 is drawn although its left edge is at
    screen-x -50, outside [[0, viewport + cellSize)]. *)
Lemma drawn_cell_left_of_origin :
  let s := onWheel (-50) 0 (construct ["a"]%string 400 400) in
  let s' := fst (render 0 s) in
  drawsCell 0 s 0 /\
  shiftedLeft s' 0 == -50 /\
  ~ extentsWithinViewport s' 0.
Proof.
  intros s s'. split; [| split].
  - apply drawsCell_iff. repeat split; try reflexivity; try discriminate.
  - reflexivity.
  - intros [[H _] _]. apply H. reflexivity.
Qed.

(** ** Panning across one canvas extent *)

Lemma panCamera_noSnap dx dy s :
  noSnap s = true ->
  Vec3.x (camera (panCamera dx dy s))
    = Vec3.x (camera s) - dx / Vec3.z (camera s) /\
  Vec3.y (camera (panCamera dx dy s))
    = Vec3.y (camera s) - dy / Vec3.z (camera s).
Proof.
  unfold noSnap. intros H.
  apply andb_prop in H. destruct H as [H Hy2].
  apply andb_prop in H. destruct H as [H Hy1].
  apply andb_prop in H. destruct H as [Hx1 Hx2].
  apply negb_true_iff in Hx1, Hx2, Hy1, Hy2.
  unfold_pan. rewrite Hx1, Hx2. cbn. rewrite Hy1, Hy2. cbn. split; reflexivity.
Qed.

Lemma pans_noSnap deltas :
  forall s,
    Vec3.z (camera s) = 1 ->
    noSnapAlong deltas s = true ->
    Vec3.x (camera (pans deltas s)) == Vec3.x (camera s) - cumulativeX deltas /\
    Vec3.y (camera (pans deltas s)) == Vec3.y (camera s) - cumulativeY deltas /\
    canvas (pans deltas s) = canvas s /\
    Box.width (viewport (pans deltas s)) = Box.width (viewport s) /\
    Box.height (viewport (pans deltas s)) = Box.height (viewport s).
Proof.
  induction deltas as [|[dx dy] rest IH]; intros s Hz Hn.
  - cbn. repeat split; ring.
  - cbn [noSnapAlong fst snd] in Hn.
    apply andb_prop in Hn. destruct Hn as [Hn Hrest].
    destruct (panCamera_noSnap dx dy s Hn) as [Ex Ey].
    destruct (panCamera_geometry dx dy s) as (_ & _ & Ecv & _ & Ew & Eh).
    assert (Hz' : Vec3.z (camera (panCamera dx dy s)) = 1)
      by now rewrite panCamera_scale.
    destruct (IH _ Hz' Hrest) as (Hx & Hy & Hc & Hw & Hh).
    change (pans ((dx, dy) :: rest) s) with (pans rest (panCamera dx dy s)).
    rewrite Hx, Hy, Hc, Hw, Hh, Ex, Ey, Ecv, Ew, Eh, Hz.
    unfold cumulativeX, cumulativeY. cbn [map fold_right fst snd].
    repeat split; field.
Qed.

Lemma pans_coupled deltas s : coupled s -> coupled (pans deltas s).
Proof.
  revert s. induction deltas as [|d rest IH]; intros s Hs; [exact Hs |].
  apply IH, panCamera_coupled.
Qed.

(** C3, as the code has it.  At scale 1, for a sequence of [panCamera]
    calls none of which starts with the negated camera outside
    [[0, canvasWidth] x [0, canvasHeight]], with cumulative
    [dx = canvasWidth] and cumulative [dy = 0], the viewport rectangle
    after the sequence is the rectangle before it moved right by exactly
    [canvasWidth]: [minX] and [maxX] grow by [canvasWidth]; [minY],
    [maxY], [width] and [height] are as before. *)
Theorem pan_by_canvas_width_translates_viewport
    (s : t) (deltas : list (Q * Q)) :
  reachable s ->
  noSnapAlong deltas s = true ->
  cumulativeX deltas == Box.width (canvas s) ->
  cumulativeY deltas == 0 ->
  let before := viewport s in
  let after := viewport (pans deltas s) in
  Box.minX after == Box.minX before + Box.width (canvas s) /\
  Box.maxX after == Box.maxX before + Box.width (canvas s) /\
  Box.minY after == Box.minY before /\
  Box.maxY after == Box.maxY before /\
  Box.width after = Box.width before /\
  Box.height after = Box.height before.
Proof.
  intros Hs Hn Hcx Hcy before after.
  destruct (reachable_invariant s Hs) as [Hz Hc _].
  destruct (pans_noSnap deltas s Hz Hn) as (Hx & Hy & _ & Hw & Hh).
  destruct (pans_coupled deltas s Hc) as (A1 & A2 & A3 & A4).
  destruct Hc as (B1 & B2 & B3 & B4).
  unfold before, after.
  rewrite A3, A4, A1, A2, B3, B4, B1, B2, Hw, Hh, Hx, Hy, Hcx, Hcy.
  repeat split; ring.
Qed.

Lemma pan_by_canvas_width_translates_viewport_witness :
  let s := construct [] 400 400 in
  let after := viewport (pans [(400, 0); (600, 0)] s) in
  Box.minX after == 0 + 1000 /\ Box.maxX after == 400 + 1000 /\
  Box.minY after == 0 /\ Box.maxY after == 400.
Proof.
  intros s after.
  destruct (pan_by_canvas_width_translates_viewport s [(400, 0); (600, 0)])
    as (H1 & H2 & H3 & H4 & _).
  - apply reach_construct.
  - reflexivity.
  - reflexivity.
  - reflexivity.
  - repeat split; assumption.
Defined.

(** C3, as the specification words it, fails: a single pan by exactly
    one canvas width (1000 for a 400 x 400 viewport) from the constructed
    state leaves the viewport rectangle at [[1000, 1400]], not at
    [[0, 400]]. *)
Lemma pan_by_canvas_width_moves_viewport :
  let s := construct [] 400 400 in
  let deltas := [(1000, 0)] in
  Vec3.z (camera s) = 1 /\
  cumulativeX deltas == Box.width (canvas s) /\
  cumulativeY deltas == 0 /\
  Box.minX (viewport s) == 0 /\
  Box.minX (viewport (pans deltas s)) == 1000 /\
  ~ sameBox (viewport (pans deltas s)) (viewport s).
Proof.
  intros s deltas. repeat split.
  intros (H & _). discriminate H.
Qed.

(** ** Inertia *)

Lemma animateVelocity_decay s :
  isPressed s = false ->
  velocity (animateVelocity s) = decay (velocity s).
Proof.
  intros Hp. unfold animateVelocity, decay. rewrite Hp.
  split_ifs; cbn; rewrite ?panCamera_velocity; reflexivity.
Qed.

Lemma repeatCall_animateVelocity n :
  forall s,
    isPressed s = false ->
    velocity (repeatCall n animateVelocity s) = decays n (velocity s).
Proof.
  induction n as [|n IH]; intros s Hp; cbn; [reflexivity |].
  rewrite IH by (now rewrite animateVelocity_isPressed).
  now rewrite animateVelocity_decay.
Qed.

Lemma isZero_test v :
  Qeq_bool (Vec2.x v) 0 && Qeq_bool (Vec2.y v) 0 = true <-> Vec2.isZero v.
Proof.
  unfold Vec2.isZero. rewrite andb_true_iff, !Qeq_bool_iff. reflexivity.
Qed.

Lemma decays_rest n v : Vec2.isZero v -> decays n v = v.
Proof.
  intros Hv. induction n as [|n IH]; cbn; [reflexivity |].
  unfold decay at 1. apply isZero_test in Hv. rewrite Hv. exact IH.
Qed.

Lemma decays_within k :
  forall v m,
    ~ Vec2.isZero v ->
    Qabs (Vec2.x v) < reach k -> Qabs (Vec2.y v) < reach k ->
    (k < m)%nat ->
    decays m v = Vec2.mk 0 0.
Proof.
  induction k as [|k IH]; intros v m Hnz Hx Hy Hm;
    (destruct m as [|m]; [lia |]); cbn [decays reach] in *;
    assert (Ht : Qeq_bool (Vec2.x v) 0 && Qeq_bool (Vec2.y v) 0 = false)
      by (apply not_true_is_false; now rewrite isZero_test).
  - unfold decay. rewrite Ht.
    apply Qltb_lt in Hx, Hy. rewrite Hx, Hy. cbn.
    apply (decays_rest m (Vec2.mk 0 0)). split; reflexivity.
  - unfold decay. rewrite Ht.
    destruct (Qltb (Qabs (Vec2.x v)) (1 # 10)
              && Qltb (Qabs (Vec2.y v)) (1 # 10)) eqn:Hsmall.
    + apply (decays_rest m (Vec2.mk 0 0)). split; reflexivity.
    + apply IH; cbn [Vec2.x Vec2.y]; try lia.
      * intros [Zx Zy]. cbn in Zx, Zy. apply Hnz. split.
        -- destruct (Qmult_integral _ _ Zx) as [E | E];
             [exact E | discriminate E].
        -- destruct (Qmult_integral _ _ Zy) as [E | E];
             [exact E | discriminate E].
      * rewrite Qabs_Qmult. change (Qabs (9 # 10)) with (9 # 10).
        lra.
      * rewrite Qabs_Qmult. change (Qabs (9 # 10)) with (9 # 10).
        lra.
Qed.

Lemma reach_lower k : (1 # 10) + inject_Z (Z.of_nat k) * (1 # 90) <= reach k.
Proof.
  induction k as [|k IH].
  - cbn [reach]. change (inject_Z (Z.of_nat 0)) with 0. lra.
  - cbn [reach]. rewrite Nat2Z.inj_succ, <- Z.add_1_r, inject_Z_plus.
    change (inject_Z 1) with 1.
    assert (0 <= inject_Z (Z.of_nat k)).
    { change 0 with (inject_Z 0). rewrite <- Zle_Qle. lia. }
    lra.
Qed.

Lemma restBound_reach v :
  Qabs (Vec2.x v) < reach (pred (restBound v)) /\
  Qabs (Vec2.y v) < reach (pred (restBound v)).
Proof.
  unfold restBound. cbn [pred].
  set (M := Qmax (Qabs (Vec2.x v)) (Qabs (Vec2.y v))).
  set (k := Z.to_nat (Qceiling (90 * M))).
  assert (HM : 0 <= M).
  { apply Qle_trans with (Qabs (Vec2.x v)); [apply Qabs_nonneg |].
    apply Q.le_max_l. }
  assert (Hk : 90 * M <= inject_Z (Z.of_nat k)).
  { unfold k. rewrite Z2Nat.id.
    - apply Qle_ceiling.
    - rewrite Zle_Qle. apply Qle_trans with (90 * M); [| apply Qle_ceiling].
      change (inject_Z 0) with 0. lra. }
  pose proof (reach_lower k) as Hr.
  pose proof (Q.le_max_l (Qabs (Vec2.x v)) (Qabs (Vec2.y v))) as Hx.
  pose proof (Q.le_max_r (Qabs (Vec2.x v)) (Qabs (Vec2.y v))) as Hy.
  fold M in Hx, Hy. split; lra.
Qed.

Lemma isZero_false v :
  Qeq_bool (Vec2.x v) 0 && Qeq_bool (Vec2.y v) 0 = false -> ~ Vec2.isZero v.
Proof. intros E H. apply isZero_test in H. congruence. Qed.

Lemma isZero_dec v : {Vec2.isZero v} + {~ Vec2.isZero v}.
Proof.
  destruct (Qeq_bool (Vec2.x v) 0 && Qeq_bool (Vec2.y v) 0) eqn:E.
  - left. now apply isZero_test.
  - right. rewrite <- isZero_test, E. discriminate.
Qed.

Lemma decays_settle k v m :
  Qabs (Vec2.x v) < reach k -> Qabs (Vec2.y v) < reach k -> (k < m)%nat ->
  Vec2.isZero (decays m v) /\
  (~ Vec2.isZero v -> decays m v = Vec2.mk 0 0).
Proof.
  intros Hx Hy Hm. split.
  - destruct (isZero_dec v) as [Hz | Hnz].
    + now rewrite decays_rest.
    + rewrite (decays_within k) by assumption. split; reflexivity.
  - intros Hnz. now apply (decays_within k).
Qed.

(** C6, as the code has it.  With no press and no further input,
    repeated [animateVelocity] calls bring any velocity to rest: after
    [restBound v] calls, and after any larger number of calls, both
    components are zero, and the velocity is exactly the vector [(0, 0)]
    if it was not zero to begin with.  With the 0.9 decay and the 0.1
    cutoff, 67 calls are enough for every velocity whose components have
    magnitude at most 100. *)
Theorem inertia_comes_to_rest (s : t) :
  isPressed s = false ->
  (forall m, (restBound (velocity s) <= m)%nat ->
     Vec2.isZero (velocity (repeatCall m animateVelocity s)) /\
     (~ Vec2.isZero (velocity s) ->
      velocity (repeatCall m animateVelocity s) = Vec2.mk 0 0)) /\
  (Qabs (Vec2.x (velocity s)) <= 100 ->
   Qabs (Vec2.y (velocity s)) <= 100 ->
   forall m, (67 <= m)%nat ->
     Vec2.isZero (velocity (repeatCall m animateVelocity s)) /\
     (~ Vec2.isZero (velocity s) ->
      velocity (repeatCall m animateVelocity s) = Vec2.mk 0 0)).
Proof.
  intros Hp. split.
  - intros m Hm. rewrite repeatCall_animateVelocity by exact Hp.
    destruct (restBound_reach (velocity s)) as [Hx Hy].
    apply (decays_settle (pred (restBound (velocity s))));
      [exact Hx | exact Hy | exact Hm].
  - intros Hx Hy m Hm. rewrite repeatCall_animateVelocity by exact Hp.
    assert (H66 : 100 < reach 66) by (vm_compute; reflexivity).
    apply (decays_settle 66); [| | exact Hm].
    + apply Qle_lt_trans with 100; assumption.
    + apply Qle_lt_trans with 100; assumption.
Qed.

Lemma inertia_comes_to_rest_witness :
  let s :=
    run [OnPress true (Some 100) (Some 0); OnMove 100 0; OnMove 0 0;
         OnPress false (Some 0) (Some 0)]
        (construct [] 400 400) in
  velocity (repeatCall 67 animateVelocity s) = Vec2.mk 0 0 /\
  velocity (repeatCall (restBound (velocity s)) animateVelocity s)
  = Vec2.mk 0 0.
Proof.
  intros s.
  assert (Hp : isPressed s = false) by (vm_compute; reflexivity).
  assert (Hnz : ~ Vec2.isZero (velocity s))
    by (apply isZero_false; vm_compute; reflexivity).
  assert (Hx : Qabs (Vec2.x (velocity s)) <= 100)
    by (vm_compute; discriminate).
  assert (Hy : Qabs (Vec2.y (velocity s)) <= 100)
    by (vm_compute; discriminate).
  destruct (inertia_comes_to_rest s Hp) as [Hany H100].
  split.
  - exact (proj2 (H100 Hx Hy 67%nat (le_n 67)) Hnz).
  - exact (proj2 (Hany _ (le_n _)) Hnz).
Defined.

(** C6, as the specification words it, fails: a drag released with
    velocity [(100, 0)] is still moving after 44 calls, and after 66; it
    is at rest after the 67th. *)
Lemma inertia_needs_67_calls :
  let s :=
    run [OnPress true (Some 100) (Some 0); OnMove 100 0; OnMove 0 0;
         OnPress false (Some 0) (Some 0)]
        (construct [] 400 400) in
  isPressed s = false /\
  Qred (Vec2.x (velocity s)) = 100 /\ Qred (Vec2.y (velocity s)) = 0 /\
  ~ Vec2.isZero (velocity (repeatCall 44 animateVelocity s)) /\
  ~ Vec2.isZero (velocity (repeatCall 66 animateVelocity s)) /\
  velocity (repeatCall 67 animateVelocity s) = Vec2.mk 0 0.
Proof.
  intros s. split; [vm_compute; reflexivity |].
  split; [vm_compute; reflexivity |].
  split; [vm_compute; reflexivity |].
  split; [| split; [| vm_compute; reflexivity]].
  - apply isZero_false. vm_compute. reflexivity.
  - apply isZero_false. vm_compute. reflexivity.
Qed.

(** * Further properties of the engine *)

(** ** Screen and world coordinates *)

(** X1.  At scale 1 the screen point [(px, py)] is the world point
    [viewport.min + (px, py)]: the screen origin is the viewport's
    top-left corner, [(width, height)] its bottom-right corner, and a
    point inside the drawing surface lies inside the viewport
    rectangle. *)
Theorem screenToCanvas_is_viewport_offset (s : t) (px py : Q) :
  reachable s ->
  let p := screenToCanvas (Vec2.mk px py) s in
  Vec2.x p == Box.minX (viewport s) + px /\
  Vec2.y p == Box.minY (viewport s) + py /\
  (0 <= px < Box.width (viewport s) ->
   Box.minX (viewport s) <= Vec2.x p < Box.maxX (viewport s)) /\
  (0 <= py < Box.height (viewport s) ->
   Box.minY (viewport s) <= Vec2.y p < Box.maxY (viewport s)).
Proof.
  intros Hs p.
  destruct (reachable_invariant s Hs) as [Hz (B1 & B2 & B3 & B4) _].
  assert (Ex : Vec2.x p == Box.minX (viewport s) + px).
  { unfold p, screenToCanvas. cbn [Vec2.x]. rewrite Hz, B1. field. }
  assert (Ey : Vec2.y p == Box.minY (viewport s) + py).
  { unfold p, screenToCanvas. cbn [Vec2.y]. rewrite Hz, B2. field. }
  repeat split; try assumption; rewrite ?B3, ?B4, ?Ex, ?Ey; lra.
Qed.

Lemma screenToCanvas_is_viewport_offset_witness :
  let s := onWheel (-50) 0 (construct [] 400 400) in
  let p := screenToCanvas (Vec2.mk 10 20) s in
  Vec2.x p == Box.minX (viewport s) + 10 /\
  Box.minX (viewport s) <= Vec2.x p < Box.maxX (viewport s).
Proof.
  intros s p.
  assert (Hs : reachable s)
    by apply (reach_step (OnWheel (-50) 0)), reach_construct.
  destruct (screenToCanvas_is_viewport_offset s 10 20 Hs)
    as (Ex & _ & Hx & _).
  split; [exact Ex |]. apply Hx. vm_compute.
  split; [discriminate | reflexivity].
Defined.

(** ** Geometry kept by a session *)

Lemma step_emojis o s : emojis (step o s) = emojis s.
Proof.
  destruct o as [ts|x y|b x y|x y|dx dy|w h]; cbn.
  - unfold animateVelocity. split_ifs; try reflexivity.
    cbn. apply panCamera_geometry.
  - unfold onMove. cbv zeta. cbn.
    destruct (isPressed s); [| reflexivity].
    match goal with
    | |- emojis (panCamera ?a ?b ?s0) = _ =>
        destruct (panCamera_geometry a b s0) as (_ & _ & _ & -> & _)
    end.
    reflexivity.
  - unfold onPress. split_ifs; reflexivity.
  - unfold onClick. split_ifs; reflexivity.
  - apply panCamera_geometry.
  - reflexivity.
Qed.

Lemma run_emojis ops s : emojis (run ops s) = emojis s.
Proof.
  revert s. induction ops as [|o ops IH]; intros s; cbn; [reflexivity |].
  rewrite IH. apply step_emojis.
Qed.

(** X2.  The glyph list is fixed at construction: the first [cols * rows]
    (100) entries of the source list, in order, whatever operations
    follow. *)
Theorem emojis_fixed_at_construction
    (source : list string) (w h : Q) (ops : list Op) :
  emojis (run ops (construct source w h)) = firstn 100 source /\
  (List.length (emojis (run ops (construct source w h))) <= 100)%nat.
Proof.
  rewrite run_emojis.
  change (emojis (construct source w h)) with (firstn 100 source).
  split; [reflexivity | apply firstn_le_length].
Qed.

Lemma animateVelocity_sizes s :
  grid (animateVelocity s) = grid s /\
  cell (animateVelocity s) = cell s /\
  canvas (animateVelocity s) = canvas s /\
  Box.width (viewport (animateVelocity s)) = Box.width (viewport s) /\
  Box.height (viewport (animateVelocity s)) = Box.height (viewport s).
Proof.
  unfold animateVelocity. split_ifs; try (repeat split; reflexivity).
  cbn.
  destruct (panCamera_geometry (Vec2.x (velocity s)) (Vec2.y (velocity s)) s)
    as (Hg & Hc & Hv & _ & Hw & Hh).
  auto.
Qed.

(** Every operation but a resize keeps the grid, the cell size, the
    canvas extent and the viewport's dimensions. *)
Lemma step_sizes o s :
  match o with
  | OnResize w h => step o s = resize w h s
  | _ =>
      grid (step o s) = grid s /\
      cell (step o s) = cell s /\
      canvas (step o s) = canvas s /\
      Box.width (viewport (step o s)) = Box.width (viewport s) /\
      Box.height (viewport (step o s)) = Box.height (viewport s)
  end.
Proof.
  destruct o as [ts|x y|b x y|x y|dx dy|w h]; cbn.
  - apply animateVelocity_sizes.
  - unfold onMove. cbv zeta. cbn.
    destruct (isPressed s); [| repeat split].
    match goal with
    | |- context [panCamera ?a ?b ?s0] =>
        destruct (panCamera_geometry a b s0) as (Hg & Hc & Hv & _ & Hw & Hh)
    end.
    rewrite Hg, Hc, Hv, Hw, Hh. repeat split.
  - unfold onPress. split_ifs; repeat split.
  - unfold onClick. split_ifs; repeat split.
  - destruct (panCamera_geometry (- dx) (- dy) s)
      as (Hg & Hc & Hv & _ & Hw & Hh).
    unfold onWheel. auto.
  - reflexivity.
Qed.

Lemma step_cellFromViewport o s :
  cellFromViewport s -> cellFromViewport (step o s).
Proof.
  unfold cellFromViewport. intros H.
  pose proof (step_sizes o s) as Hs.
  destruct o; try (destruct Hs as (_ & -> & _ & -> & ->); exact H).
  rewrite Hs. reflexivity.
Qed.

Lemma run_cellFromViewport ops s :
  cellFromViewport s -> cellFromViewport (run ops s).
Proof.
  revert s. induction ops as [|o ops IH]; intros s H; cbn; [exact H |].
  apply IH, step_cellFromViewport, H.
Qed.

(** X3.  In every state of every session the cell is as wide as the larger
    of a quarter of the viewport width and a quarter of its height, so
    the viewport spans at most four cell widths in either direction;
    the cell is 5/4 as high as wide; the canvas extent is 10 by 10
    cells; and the cell has positive dimensions as soon as one viewport
    dimension is positive. *)
Theorem session_geometry (source : list string) (w h : Q) (ops : list Op) :
  let s := run ops (construct source w h) in
  let cw := Size.width (cell s) in
  let ch := Size.height (cell s) in
  cw = Qmax (Box.width (viewport s) / 4) (Box.height (viewport s) / 4) /\
  Box.width (viewport s) <= 4 * cw /\
  Box.height (viewport s) <= 4 * cw /\
  ch == (5 # 4) * cw /\
  Box.width (canvas s) == 10 * cw /\
  Box.height (canvas s) == 10 * ch /\
  (0 < Box.width (viewport s) \/ 0 < Box.height (viewport s) ->
   0 < cw /\ 0 < ch).
Proof.
  intros s cw ch.
  assert (Hinv : invariant s)
    by apply reachable_invariant, reachable_run, reach_construct.
  assert (Hc : cellFromViewport s).
  { apply run_cellFromViewport. reflexivity. }
  destruct Hinv as [_ _ [Hg Hcell HW HH _]].
  unfold cellFromViewport in Hc. fold cw in Hc, Hcell, HW, HH.
  fold ch in Hcell, HH. rewrite Hg in HW, HH. cbn [Grid.cols Grid.rows] in *.
  pose proof (Q.le_max_l (Box.width (viewport s) / 4)
                (Box.height (viewport s) / 4)) as Hl.
  pose proof (Q.le_max_r (Box.width (viewport s) / 4)
                (Box.height (viewport s) / 4)) as Hr.
  rewrite <- Hc in Hl, Hr.
  assert (Hvw : Box.width (viewport s) <= 4 * cw).
  { apply Qmult_le_l with (z := 1 # 4); [reflexivity |].
    setoid_replace ((1 # 4) * (4 * cw)) with cw by ring.
    setoid_replace ((1 # 4) * Box.width (viewport s))
      with (Box.width (viewport s) / 4) by field.
    exact Hl. }
  assert (Hvh : Box.height (viewport s) <= 4 * cw).
  { apply Qmult_le_l with (z := 1 # 4); [reflexivity |].
    setoid_replace ((1 # 4) * (4 * cw)) with cw by ring.
    setoid_replace ((1 # 4) * Box.height (viewport s))
      with (Box.height (viewport s) / 4) by field.
    exact Hr. }
  assert (Hch : ch == (5 # 4) * cw) by (rewrite Hcell; field).
  split; [exact Hc |]. split; [exact Hvw |]. split; [exact Hvh |].
  split; [exact Hch |].
  split; [rewrite HW; change (inject_Z 10) with 10; ring |].
  split; [rewrite HH; change (inject_Z 10) with 10; ring |].
  intros Hpos. assert (0 < cw) by (destruct Hpos; lra).
  split; [assumption | lra].
Qed.

Lemma session_geometry_witness :
  let s := run [OnWheel 30 0; OnResize 800 400] (construct [] 400 400) in
  0 < Size.width (cell s) /\ 0 < Size.height (cell s).
Proof.
  intros s.
  destruct (session_geometry [] 400 400 [OnWheel 30 0; OnResize 800 400])
    as (_ & _ & _ & _ & _ & _ & Hpos).
  apply Hpos. left. vm_compute. reflexivity.
Defined.

(** ** Frames, inertia and the wheel *)

Lemma animateVelocity_idle s :
  isPressed s = true \/ Vec2.isZero (velocity s) -> animateVelocity s = s.
Proof.
  intros [Hp | Hz]; unfold animateVelocity.
  - now rewrite Hp.
  - apply isZero_test in Hz. rewrite Hz. now destruct (isPressed s).
Qed.

Lemma animateVelocity_slows s :
  Qabs (Vec2.x (velocity (animateVelocity s))) <= Qabs (Vec2.x (velocity s)) /\
  Qabs (Vec2.y (velocity (animateVelocity s))) <= Qabs (Vec2.y (velocity s)).
Proof.
  destruct (isPressed s) eqn:Hp.
  - rewrite animateVelocity_idle by (now left). split; apply Qle_refl.
  - rewrite animateVelocity_decay by exact Hp. unfold decay.
    destruct (Qeq_bool _ 0 && Qeq_bool _ 0); [split; apply Qle_refl |].
    destruct (Qltb _ _ && Qltb _ _); cbn [Vec2.x Vec2.y].
    + split; apply Qabs_nonneg.
    + rewrite !Qabs_Qmult. change (Qabs (9 # 10)) with (9 # 10).
      pose proof (Qabs_nonneg (Vec2.x (velocity s))).
      pose proof (Qabs_nonneg (Vec2.y (velocity s))).
      split; lra.
Qed.

(** X5.  Inertia never accelerates: after any number of [animateVelocity]
    calls neither velocity component is larger in magnitude than it
    was. *)
Theorem inertia_never_accelerates (n : nat) (s : t) :
  Qabs (Vec2.x (velocity (repeatCall n animateVelocity s)))
    <= Qabs (Vec2.x (velocity s)) /\
  Qabs (Vec2.y (velocity (repeatCall n animateVelocity s)))
    <= Qabs (Vec2.y (velocity s)).
Proof.
  revert s. induction n as [|n IH]; intros s; cbn.
  - split; apply Qle_refl.
  - destruct (IH (animateVelocity s)) as [Hx Hy].
    destruct (animateVelocity_slows s) as [Sx Sy].
    split; eapply Qle_trans; eassumption.
Qed.

(** X6.  The wheel moves the camera and nothing else: velocity, press state,
    press start point, pointer, active and hovered cell, cell size,
    canvas extent, glyph list and scale are as before. *)
Theorem onWheel_only_moves_camera (deltaX deltaY : Q) (s : t) :
  velocity (onWheel deltaX deltaY s) = velocity s /\
  isPressed (onWheel deltaX deltaY s) = isPressed s /\
  pressStartPoint (onWheel deltaX deltaY s) = pressStartPoint s /\
  mouse (onWheel deltaX deltaY s) = mouse s /\
  activeCell (onWheel deltaX deltaY s) = activeCell s /\
  hoveredCell (onWheel deltaX deltaY s) = hoveredCell s /\
  cell (onWheel deltaX deltaY s) = cell s /\
  canvas (onWheel deltaX deltaY s) = canvas s /\
  emojis (onWheel deltaX deltaY s) = emojis s /\
  Vec3.z (camera (onWheel deltaX deltaY s)) = Vec3.z (camera s).
Proof.
  unfold onWheel.
  destruct (panCamera_shape (- deltaX) (- deltaY) s) as (cx & cy & ->).
  repeat split.
Qed.

(** ** The wrap guards of [panCamera] *)

Lemma panCamera_axes dx dy s :
  Vec3.x (camera (panCamera dx dy s))
  = (if Qltb (- Vec3.x (camera s)) 0 then - Box.width (canvas s)
     else if Qltb (Box.width (canvas s)) (- Vec3.x (camera s)) then 0
     else Vec3.x (camera s) - dx / Vec3.z (camera s)) /\
  Vec3.y (camera (panCamera dx dy s))
  = (if Qltb (- Vec3.y (camera s)) 0 then - Box.height (canvas s)
     else if Qltb (Box.height (canvas s)) (- Vec3.y (camera s)) then 0
     else Vec3.y (camera s) - dy / Vec3.z (camera s)).
Proof.
  unfold panCamera, refreshViewport, panCameraY, panCameraX.
  destruct (Qltb (- Vec3.x (camera s)) 0);
    [| destruct (Qltb (Box.width (canvas s)) (- Vec3.x (camera s)))];
    cbn;
    (destruct (Qltb (- Vec3.y (camera s)) 0);
     [| destruct (Qltb (Box.height (canvas s)) (- Vec3.y (camera s)))]);
    cbn; split; reflexivity.
Qed.

Lemma pan_axis_bound (c W d : Q) :
  0 <= W ->
  let c' := if Qltb (- c) 0 then - W
            else if Qltb W (- c) then 0 else c - d / 1 in
  (- Qabs d <= - c' <= W + Qabs d) /\
  (- c < 0 -> c' = - W) /\
  (W < - c -> c' = 0) /\
  (0 <= - c <= W -> c' == c - d) /\
  (- c < 0 \/ W < - c -> 0 <= - c' <= W).
Proof.
  intros HW c'. unfold c'.
  pose proof (Qle_Qabs d) as H1.
  pose proof (Qle_Qabs (- d)) as H2. rewrite Qabs_opp in H2.
  pose proof (Qabs_nonneg d) as H3.
  assert (E : c - d / 1 == c - d) by field.
  destruct (Qltb (- c) 0) eqn:A; [| destruct (Qltb W (- c)) eqn:B].
  - apply Qltb_lt in A.
    repeat split; intros; try reflexivity; try lra; exfalso; lra.
  - apply Qltb_ge in A. apply Qltb_lt in B.
    repeat split; intros; try reflexivity; try lra; exfalso; lra.
  - apply Qltb_ge in A, B.
    repeat split; intros; rewrite ?E; try lra; exfalso; lra.
Qed.

(** X7.  A pan that starts with the negated camera left of (above) 0
    ignores its delta on that axis and puts the camera at
    [-canvasWidth] ([-canvasHeight]); one that starts beyond
    [canvasWidth] ([canvasHeight]) ignores its delta and puts it at 0;
    one that starts inside the range subtracts the delta.  Hence a pan
    that starts outside the range ends inside it, and no pan leaves the
    camera further outside the range than the delta of that call. *)
Theorem pan_excursion_bounded (dx dy : Q) (s : t) :
  Vec3.z (camera s) = 1 ->
  0 <= Box.width (canvas s) ->
  0 <= Box.height (canvas s) ->
  let s' := panCamera dx dy s in
  let nx := - Vec3.x (camera s) in
  let ny := - Vec3.y (camera s) in
  (nx < 0 -> Vec3.x (camera s') = - Box.width (canvas s)) /\
  (Box.width (canvas s) < nx -> Vec3.x (camera s') = 0) /\
  (0 <= nx <= Box.width (canvas s) ->
   Vec3.x (camera s') == Vec3.x (camera s) - dx) /\
  (ny < 0 -> Vec3.y (camera s') = - Box.height (canvas s)) /\
  (Box.height (canvas s) < ny -> Vec3.y (camera s') = 0) /\
  (0 <= ny <= Box.height (canvas s) ->
   Vec3.y (camera s') == Vec3.y (camera s) - dy) /\
  (nx < 0 \/ Box.width (canvas s) < nx ->
   0 <= - Vec3.x (camera s') <= Box.width (canvas s)) /\
  (ny < 0 \/ Box.height (canvas s) < ny ->
   0 <= - Vec3.y (camera s') <= Box.height (canvas s)) /\
  (- Qabs dx <= - Vec3.x (camera s') <= Box.width (canvas s) + Qabs dx) /\
  (- Qabs dy <= - Vec3.y (camera s') <= Box.height (canvas s) + Qabs dy).
Proof.
  intros Hz HW HH s' nx ny. unfold s', nx, ny.
  destruct (panCamera_axes dx dy s) as [-> ->]. rewrite Hz.
  destruct (pan_axis_bound (Vec3.x (camera s)) _ dx HW)
    as (X1 & X2 & X3 & X4 & X5).
  destruct (pan_axis_bound (Vec3.y (camera s)) _ dy HH)
    as (Y1 & Y2 & Y3 & Y4 & Y5).
  repeat split; auto; try apply X1; try apply Y1;
    try (apply X5; assumption); try (apply Y5; assumption).
Qed.

Lemma pan_excursion_bounded_witness :
  let s := panCamera 1100 0 (construct [] 400 400) in
  let s' := panCamera 25 0 s in
  Vec3.x (camera s') = 0 /\
  0 <= - Vec3.x (camera s') <= Box.width (canvas s) /\
  Vec3.y (camera s') == Vec3.y (camera s) - 0.
Proof.
  intros s s'.
  assert (Hz : Vec3.z (camera s) = 1) by reflexivity.
  assert (HW : 0 <= Box.width (canvas s)) by (vm_compute; discriminate).
  assert (HH : 0 <= Box.height (canvas s)) by (vm_compute; discriminate).
  assert (Hout : Box.width (canvas s) < - Vec3.x (camera s))
    by (vm_compute; reflexivity).
  destruct (pan_excursion_bounded 25 0 s Hz HW HH)
    as (_ & H2 & _ & _ & _ & H6 & H7 & _).
  split; [exact (H2 Hout) |].
  split; [apply H7; right; exact Hout |].
  apply H6. vm_compute. split; discriminate.
Defined.

(** X8.  While no wrap guard fires, pans add up: after a sequence of
    [panCamera] calls the camera has moved by minus the cumulative
    delta and the viewport rectangle by the cumulative delta; a sequence
    whose deltas cancel brings the viewport back where it was. *)
Theorem pans_add_up (s : t) (deltas : list (Q * Q)) :
  reachable s ->
  noSnapAlong deltas s = true ->
  let s' := pans deltas s in
  Vec3.x (camera s') == Vec3.x (camera s) - cumulativeX deltas /\
  Vec3.y (camera s') == Vec3.y (camera s) - cumulativeY deltas /\
  Box.minX (viewport s') == Box.minX (viewport s) + cumulativeX deltas /\
  Box.minY (viewport s') == Box.minY (viewport s) + cumulativeY deltas /\
  Box.maxX (viewport s') == Box.maxX (viewport s) + cumulativeX deltas /\
  Box.maxY (viewport s') == Box.maxY (viewport s) + cumulativeY deltas /\
  (cumulativeX deltas == 0 -> cumulativeY deltas == 0 ->
   sameBox (viewport s') (viewport s)).
Proof.
  intros Hs Hn s'.
  destruct (reachable_invariant s Hs) as [Hz Hc _].
  destruct (pans_noSnap deltas s Hz Hn) as (Hx & Hy & _ & Hw & Hh).
  destruct (pans_coupled deltas s Hc) as (A1 & A2 & A3 & A4).
  destruct Hc as (B1 & B2 & B3 & B4).
  fold s' in Hx, Hy, Hw, Hh, A1, A2, A3, A4.
  assert (E1 : Box.minX (viewport s')
               == Box.minX (viewport s) + cumulativeX deltas)
    by (rewrite A1, B1, Hx; ring).
  assert (E2 : Box.minY (viewport s')
               == Box.minY (viewport s) + cumulativeY deltas)
    by (rewrite A2, B2, Hy; ring).
  assert (E3 : Box.maxX (viewport s')
               == Box.maxX (viewport s) + cumulativeX deltas)
    by (rewrite A3, B3, E1, Hw; ring).
  assert (E4 : Box.maxY (viewport s')
               == Box.maxY (viewport s) + cumulativeY deltas)
    by (rewrite A4, B4, E2, Hh; ring).
  repeat (split; [assumption |]).
  intros Cx Cy. unfold sameBox.
  rewrite E1, E2, E3, E4, Cx, Cy, Hw, Hh.
  repeat split; ring.
Qed.

Lemma pans_add_up_witness :
  let s := construct [] 400 400 in
  let s' := pans [(300, 200); (-100, 50); (-200, -250)] s in
  Vec3.x (camera s') == Vec3.x (camera s) - 0 /\
  sameBox (viewport s') (viewport s).
Proof.
  intros s s'.
  destruct (pans_add_up s [(300, 200); (-100, 50); (-200, -250)])
    as (Hx & _ & _ & _ & _ & _ & Hback).
  - apply reach_construct.
  - vm_compute. reflexivity.
  - split; [exact Hx |]. apply Hback; reflexivity.
Defined.

(** ** Dragging *)

Lemma onMove_pressed x y s m :
  isPressed s = true -> mouse s = Some m ->
  let v := Vec2.mk (Vec2.x (Mouse.current m) - x)
                   (Vec2.y (Mouse.current m) - y) in
  let moved :=
    Mouse.mk (Vec2.mk (Vec2.x (Mouse.current m)) (Vec2.y (Mouse.current m)))
             (Vec2.mk x y) in
  let s2 := panCamera (Vec2.x v) (Vec2.y v)
              (set_velocity v (set_mouse (Some moved) s)) in
  onMove x y s = set_hoveredCell (getCellIndexFromPoint x y s2) s2.
Proof.
  intros Hp Hm. unfold onMove. rewrite Hm. cbn. rewrite Hp. reflexivity.
Qed.

(** X9.  A drag tracks the pointer one to one: while pressed, with the camera
    inside the wrap range, a move to [(x, y)] sets the velocity to the
    previous pointer position minus the new one and leaves under the
    pointer the same world point that was under it before the move. *)
Theorem drag_keeps_world_point (s : t) (m : Mouse.t) (x y : Q) :
  reachable s ->
  isPressed s = true ->
  mouse s = Some m ->
  noSnap s = true ->
  let s' := onMove x y s in
  let before := screenToCanvas (Mouse.current m) s in
  let after := screenToCanvas (Vec2.mk x y) s' in
  Vec2.x after == Vec2.x before /\
  Vec2.y after == Vec2.y before /\
  velocity s' = Vec2.mk (Vec2.x (Mouse.current m) - x)
                        (Vec2.y (Mouse.current m) - y) /\
  Vec3.x (camera s') == Vec3.x (camera s) + (x - Vec2.x (Mouse.current m)) /\
  Vec3.y (camera s') == Vec3.y (camera s) + (y - Vec2.y (Mouse.current m)).
Proof.
  intros Hs Hp Hm Hn s' before after.
  destruct (reachable_invariant s Hs) as [Hz _ _].
  pose proof (onMove_pressed x y s m Hp Hm) as E. cbv zeta in E.
  set (v := Vec2.mk (Vec2.x (Mouse.current m) - x)
                    (Vec2.y (Mouse.current m) - y)) in *.
  set (s1 := set_velocity v (set_mouse _ s)) in *.
  assert (Hn1 : noSnap s1 = true) by exact Hn.
  destruct (panCamera_noSnap (Vec2.x v) (Vec2.y v) s1 Hn1) as [Ex Ey].
  pose proof (panCamera_scale (Vec2.x v) (Vec2.y v) s1) as Ez.
  pose proof (panCamera_velocity (Vec2.x v) (Vec2.y v) s1) as Ev.
  change (Vec3.z (camera s1)) with (Vec3.z (camera s)) in *.
  change (Vec3.x (camera s1)) with (Vec3.x (camera s)) in *.
  change (Vec3.y (camera s1)) with (Vec3.y (camera s)) in *.
  rewrite Hz in *.
  assert (Cx : Vec3.x (camera s')
               == Vec3.x (camera s) + (x - Vec2.x (Mouse.current m))).
  { unfold s'. rewrite E. cbn [camera set_hoveredCell]. rewrite Ex.
    unfold v. cbn [Vec2.x]. field. }
  assert (Cy : Vec3.y (camera s')
               == Vec3.y (camera s) + (y - Vec2.y (Mouse.current m))).
  { unfold s'. rewrite E. cbn [camera set_hoveredCell]. rewrite Ey.
    unfold v. cbn [Vec2.y]. field. }
  assert (Cz : Vec3.z (camera s') = 1).
  { unfold s'. rewrite E. cbn [camera set_hoveredCell]. exact Ez. }
  unfold after, before, screenToCanvas. cbn [Vec2.x Vec2.y].
  rewrite Cz, Hz, Cx, Cy.
  split; [field |]. split; [field |].
  split; [| split; reflexivity].
  unfold s'. rewrite E. cbn [velocity set_hoveredCell]. exact Ev.
Qed.

Lemma drag_keeps_world_point_witness :
  let s := run [OnPress true (Some 100) (Some 100); OnMove 100 100]
               (construct [] 400 400) in
  let m := Mouse.mk (Vec2.mk 100 100) (Vec2.mk 100 100) in
  Vec2.x (screenToCanvas (Vec2.mk 90 120) (onMove 90 120 s))
  == Vec2.x (screenToCanvas (Mouse.current m) s).
Proof.
  intros s m.
  assert (Hs : reachable s) by (apply reachable_run, reach_construct).
  assert (Hp : isPressed s = true) by (vm_compute; reflexivity).
  assert (Hm : mouse s = Some m) by (vm_compute; reflexivity).
  assert (Hn : noSnap s = true) by (vm_compute; reflexivity).
  exact (proj1 (drag_keeps_world_point s m 90 120 Hs Hp Hm Hn)).
Defined.

(** ** What a frame draws *)

Lemma drawCell_anchors s i e d :
  drawCell s i e = Some d ->
  Drawn.glyphX d = Drawn.rectX d + Drawn.rectW d / 2 /\
  Drawn.glyphY d = Drawn.rectY d + Drawn.rectH d / 2 /\
  Drawn.labelX d = Drawn.rectX d + Box.width (viewport s) / 55 /\
  Drawn.labelY d = Drawn.rectY d + Box.width (viewport s) / 50.
Proof.
  unfold drawCell.
  destruct (negb (isVisibleX s i) || negb (isVisibleY s i)); [discriminate |].
  intros [= <-]. cbn. repeat split.
Qed.

Lemma renderLoop_ordered s rest :
  forall i0,
    Forall (fun d => (i0 <= Drawn.i d)%Z) (renderLoop s i0 rest) /\
    StronglySorted Z.lt (map Drawn.i (renderLoop s i0 rest)) /\
    NoDup (map Drawn.i (renderLoop s i0 rest)) /\
    (List.length (renderLoop s i0 rest) <= List.length rest)%nat.
Proof.
  induction rest as [|e rest IH]; intros i0; cbn [renderLoop].
  - repeat split; constructor.
  - destruct (IH (i0 + 1)%Z) as (Hlo & Hs & Hn & Hl).
    assert (Hlo' : Forall (fun d => (i0 < Drawn.i d)%Z)
                     (renderLoop s (i0 + 1) rest)).
    { eapply Forall_impl; [| exact Hlo]. cbn. intros; lia. }
    destruct (drawCell s i0 e) as [d|] eqn:Hd.
    + apply drawCell_Some in Hd. destruct Hd as (_ & _ & Ei & _).
      cbn [map List.length]. rewrite Ei. repeat split.
      * constructor; [lia |].
        eapply Forall_impl; [| exact Hlo]. cbn. intros; lia.
      * constructor; [exact Hs |]. apply Forall_map. exact Hlo'.
      * constructor; [| exact Hn].
        intros Hin. apply in_map_iff in Hin. destruct Hin as (d' & E & Hin).
        rewrite Forall_forall in Hlo'. specialize (Hlo' d' Hin). lia.
      * lia.
    + repeat split; try assumption; [| cbn; lia].
      eapply Forall_impl; [| exact Hlo]. cbn. intros; lia.
Qed.

(** X10.  A frame draws each cell at most once, in increasing index order,
    and never more cells than there are glyphs.  The cell with counter
    [i] is drawn with the glyph [emojis[i]], as a rectangle of the cell
    size, with the glyph anchored at the rectangle's centre and the
    index label at the corner plus [viewport.width / 55] horizontally and
    [viewport.width / 50] vertically. *)
Theorem frame_draws_each_cell_once (ts : Q) (s : t) :
  let s' := fst (render ts s) in
  let drawn := snd (render ts s) in
  StronglySorted Z.lt (map Drawn.i drawn) /\
  NoDup (map Drawn.i drawn) /\
  (List.length drawn <= List.length (emojis s'))%nat /\
  Forall
    (fun d =>
       (0 <= Drawn.i d)%Z /\
       nth_error (emojis s') (Z.to_nat (Drawn.i d)) = Some (Drawn.glyph d) /\
       Drawn.rectW d = Size.width (cell s') /\
       Drawn.rectH d = Size.height (cell s') /\
       Drawn.glyphX d = Drawn.rectX d + Drawn.rectW d / 2 /\
       Drawn.glyphY d = Drawn.rectY d + Drawn.rectH d / 2 /\
       Drawn.labelX d = Drawn.rectX d + Box.width (viewport s') / 55 /\
       Drawn.labelY d = Drawn.rectY d + Box.width (viewport s') / 50)
    drawn.
Proof.
  intros s' drawn. unfold drawn, s', render. cbn [fst snd].
  set (s1 := animateVelocity s).
  destruct (renderLoop_ordered s1 (emojis s1) 0%Z) as (_ & Hs & Hn & Hl).
  repeat (split; [assumption |]).
  apply Forall_forall. intros d Hin.
  apply renderLoop_In in Hin. destruct Hin as (k & e & Hk & Hd).
  rewrite Z.add_0_l in Hd.
  destruct (drawCell_anchors _ _ _ _ Hd) as (A1 & A2 & A3 & A4).
  apply drawCell_Some in Hd.
  destruct Hd as (_ & _ & Ei & Eg & _ & _ & Ew & Eh).
  rewrite Ei, Eg, Nat2Z.id.
  repeat split; try assumption. lia.
Qed.

(** ** The cell under the pointer *)

Lemma floor_bracket (X w : Q) :
  0 < w ->
  inject_Z (Qfloor (X / w)) * w <= X /\
  X < inject_Z (Qfloor (X / w)) * w + w.
Proof.
  intros Hw.
  assert (E : X == X / w * w).
  { field. intros H0. rewrite H0 in Hw. discriminate. }
  split.
  - rewrite E at 2. apply Qmult_le_compat_r; [apply Qfloor_le | lra].
  - setoid_replace (inject_Z (Qfloor (X / w)) * w + w)
      with (inject_Z (Qfloor (X / w) + 1) * w)
      by (rewrite inject_Z_plus; change (inject_Z 1) with 1; ring).
    rewrite E at 1. apply Qmult_lt_compat_r; [exact Hw | apply Qlt_floor].
Qed.

(** One axis of the coverage: a screen coordinate [p] inside a viewport
    at most four cells wide, over a camera inside the wrap range of a
    ten-cell canvas, falls into the shifted cell the addressor names,
    and that cell passes the visibility test. *)
Lemma cover_axis (cam w vw p : Q) :
  0 < w -> vw <= 4 * w ->
  0 <= - cam -> - cam <= w * inject_Z 10 ->
  0 <= p -> p < vw ->
  let q := Qfloor ((p / 1 - cam) / w) in
  let r := (if (0 <=? Z.rem q 10)%Z then Z.rem q 10 else 10 + Z.rem q 10)%Z in
  let cmin := cam + inject_Z r * w in
  let shift :=
    if Qltb (cmin + w) 0 then w * inject_Z 10
    else if Qltb (vw + w) cmin then - (w * inject_Z 10)
    else 0 in
  (0 <= r < 10)%Z /\
  shift + cmin + w < vw + w /\
  cam + (inject_Z r * w + shift) <= p /\
  p < cam + (inject_Z r * w + shift) + w.
Proof.
  intros Hw Hvw Hc0 HcW Hp0 Hpv q r cmin shift.
  change (inject_Z 10) with 10 in *.
  assert (EX : p / 1 - cam == p - cam) by field.
  destruct (floor_bracket (p / 1 - cam) w Hw) as [Hlo Hhi].
  fold q in Hlo, Hhi. rewrite EX in Hlo, Hhi.
  assert (Hq0 : (0 <= q)%Z).
  { change 0%Z with (Qfloor 0). apply Qfloor_resp_le.
    apply Qle_shift_div_l; [exact Hw | lra]. }
  assert (Hq14 : (q < 14)%Z).
  { rewrite Zlt_Qlt. apply (Qmult_lt_r _ _ w Hw).
    change (inject_Z 14) with 14. lra. }
  assert (Hr : r = (q mod 10)%Z) by (apply wrap_rem_mod; lia).
  assert (Hrange : (0 <= r < 10)%Z)
    by (rewrite Hr; apply Z.mod_pos_bound; lia).
  split; [exact Hrange |].
  assert (Hcase : (r = q /\ q < 10)%Z \/ (r = q - 10 /\ 10 <= q)%Z).
  { destruct (Z.lt_ge_cases q 10) as [Hlt | Hge].
    - left. split; [| exact Hlt]. rewrite Hr. apply Z.mod_small. lia.
    - right. split; [| exact Hge]. rewrite Hr.
      replace q with (q - 10 + 1 * 10)%Z at 1 by lia.
      rewrite Z.mod_add by lia. apply Z.mod_small. lia. }
  set (t := inject_Z q * w) in *.
  destruct Hcase as [[Er _] | [Er _]].
  - assert (Et : inject_Z r * w == t) by (rewrite Er; reflexivity).
    unfold shift, cmin.
    destruct (Qltb (cam + inject_Z r * w + w) 0) eqn:A.
    { apply Qltb_lt in A. rewrite Et in A. lra. }
    destruct (Qltb (vw + w) (cam + inject_Z r * w)) eqn:B.
    { apply Qltb_lt in B. rewrite Et in B. lra. }
    rewrite Et. repeat split; lra.
  - assert (Et : inject_Z r * w == t - 10 * w).
    { rewrite Er. unfold Z.sub. rewrite inject_Z_plus, inject_Z_opp.
      change (inject_Z 10) with 10. unfold t. ring. }
    unfold shift, cmin.
    destruct (Qltb (cam + inject_Z r * w + w) 0) eqn:A.
    + rewrite Et. repeat split; lra.
    + apply Qltb_ge in A. rewrite Et in A. lra.
Qed.

Lemma index_split (r c : Z) :
  (0 <= r < 10)%Z -> (0 <= c < 10)%Z ->
  Z.rem (r + c * 10) 10 = r /\
  Qfloor (inject_Z (r + c * 10) / inject_Z 10) = c /\
  (0 <= r + c * 10 < 100)%Z.
Proof.
  intros Hr Hc. split; [| split; [| lia]].
  - rewrite Z.rem_mod_nonneg by lia.
    rewrite Z.mod_add by lia. apply Z.mod_small, Hr.
  - rewrite <- Zdiv_Qdiv. rewrite Z.div_add by lia.
    rewrite Z.div_small by lia. reflexivity.
Qed.

Lemma reachable_cellFromViewport s : reachable s -> cellFromViewport s.
Proof.
  induction 1 as [source w h | o s _ IH].
  - reflexivity.
  - apply step_cellFromViewport, IH.
Qed.

(** X12.  What is drawn under the pointer is what the addressor names.
    In a frame drawn with the camera inside the wrap range and a glyph
    list that fills the grid, with camera, viewport and pointer at whole
    pixels and a cell width that is a multiple of 4 pixels, every point
    of the drawing surface lies in the rectangle drawn for the cell that
    [getCellIndexFromPoint] returns for that point: the viewport has no
    gaps, and the cell a click selects is the one shown under it.

    The whole-pixel hypotheses are what doubles need: between pixels the
    sum of pointer and camera offset can round across a cell edge
    (viewport 300, camera -719.3, pointer 30.7: the sum rounds to 750 and
    cell 0 is addressed although cell 9 is under the pointer). *)
Theorem pointer_cell_is_drawn_under_pointer (ts : Q) (s : t) (px py : Q) :
  reachable s ->
  let s' := fst (render ts s) in
  noSnap s' = true ->
  List.length (emojis s') = 100%nat ->
  wholePixels (Vec3.x (camera s')) = true ->
  wholePixels (Vec3.y (camera s')) = true ->
  wholePixels (Box.width (viewport s')) = true ->
  wholePixels (Box.height (viewport s')) = true ->
  wholePixels (Size.width (cell s') / 4) = true ->
  wholePixels px = true ->
  wholePixels py = true ->
  0 <= px < Box.width (viewport s') ->
  0 <= py < Box.height (viewport s') ->
  exists d,
    In d (snd (render ts s)) /\
    Drawn.i d = CellRef.index (getCellIndexFromPoint px py s') /\
    drawnOver s' d px py.
Proof.
  intros Hs s' Hn Hlen _ _ _ _ _ _ _ [Hx0 Hx1] [Hy0 Hy1].
  assert (Hr : reachable s') by apply (reach_step (Render ts)), Hs.
  unfold render. cbn [snd]. change (animateVelocity s) with s'.
  pose proof (reachable_cellFromViewport s' Hr) as Hcv.
  destruct (reachable_invariant s' Hr) as [Hz _ [Hg Hcell HW HH _]].
  unfold cellFromViewport in Hcv.
  set (cw := Size.width (cell s')) in *.
  set (ch := Size.height (cell s')) in *.
  set (vw := Box.width (viewport s')) in *.
  set (vh := Box.height (viewport s')) in *.
  (* sizes *)
  pose proof (Q.le_max_l (vw / 4) (vh / 4)) as Hl.
  pose proof (Q.le_max_r (vw / 4) (vh / 4)) as Hrr.
  rewrite <- Hcv in Hl, Hrr.
  assert (Ew : vw / 4 == vw * (1 # 4)) by field.
  assert (Eh : vh / 4 == vh * (1 # 4)) by field.
  assert (Ech : ch == cw * (5 # 4)) by (rewrite Hcell; field).
  rewrite Ew in Hl. rewrite Eh in Hrr.
  assert (Hcw : 0 < cw) by lra.
  assert (Hch : 0 < ch) by lra.
  (* camera range *)
  unfold noSnap in Hn.
  apply andb_prop in Hn. destruct Hn as [Hn N4].
  apply andb_prop in Hn. destruct Hn as [Hn N3].
  apply andb_prop in Hn. destruct Hn as [N1 N2].
  apply negb_true_iff in N1, N2, N3, N4.
  apply Qltb_ge in N1, N2, N3, N4.
  rewrite HW in N2. rewrite HH in N4. rewrite Hg in *.
  cbn [Grid.cols Grid.rows] in *. fold cw in N2. fold ch in N4.
  (* the two axes *)
  pose proof (cover_axis (Vec3.x (camera s')) cw vw px Hcw
                ltac:(lra) N1 N2 Hx0 Hx1) as Cx.
  pose proof (cover_axis (Vec3.y (camera s')) ch vh py Hch
                ltac:(lra) N3 N4 Hy0 Hy1) as Cy.
  cbv zeta in Cx, Cy.
  set (r := (if (0 <=? Z.rem (Qfloor ((px / 1 - Vec3.x (camera s')) / cw)) 10)%Z
             then _ else _)) in Cx.
  set (c := (if (0 <=? Z.rem (Qfloor ((py / 1 - Vec3.y (camera s')) / ch)) 10)%Z
             then _ else _)) in Cy.
  destruct Cx as (Rr & Vx & Lx & Ux). destruct Cy as (Rc & Vy & Ly & Uy).
  destruct (index_split r c Rr Rc) as (Er & Ec & Hi).
  set (i := (r + c * 10)%Z) in *.
  assert (Eidx : getCellIndexFromPoint px py s' = CellRef.mk i r c).
  { unfold getCellIndexFromPoint, screenToCanvas. cbv zeta.
    cbn [Vec2.x Vec2.y]. rewrite Hz, Hg. reflexivity. }
  assert (Erow : rowIndex s' i = r) by (unfold rowIndex; now rewrite Hg).
  assert (Ecol : colIndex s' i = c) by (unfold colIndex; now rewrite Hg).
  assert (Esx : shiftX s' i
                = (if Qltb (Vec3.x (camera s') + inject_Z r * cw + cw) 0
                   then cw * inject_Z 10
                   else if Qltb (vw + cw) (Vec3.x (camera s') + inject_Z r * cw)
                        then - (cw * inject_Z 10) else 0)).
  { unfold shiftX, cellMinX. rewrite Erow, HW. reflexivity. }
  assert (Esy : shiftY s' i
                = (if Qltb (Vec3.y (camera s') + inject_Z c * ch + ch) 0
                   then ch * inject_Z 10
                   else if Qltb (vh + ch) (Vec3.y (camera s') + inject_Z c * ch)
                        then - (ch * inject_Z 10) else 0)).
  { unfold shiftY, cellMinY. rewrite Ecol, HH. reflexivity. }
  assert (Hvx : isVisibleX s' i = true).
  { unfold isVisibleX. apply Qltb_lt. rewrite Esx.
    unfold cellMinX. rewrite Erow. exact Vx. }
  assert (Hvy : isVisibleY s' i = true).
  { unfold isVisibleY. apply Qltb_lt. rewrite Esy.
    unfold cellMinY. rewrite Ecol. exact Vy. }
  destruct (nth_error (emojis s') (Z.to_nat i)) as [e|] eqn:Hk.
  2:{ apply nth_error_None in Hk. lia. }
  destruct (drawCell_visible s' i e Hvx Hvy) as [d Hd].
  exists d. split.
  - apply renderLoop_In. exists (Z.to_nat i), e.
    rewrite Z.add_0_l, Z2Nat.id by lia. auto.
  - apply drawCell_Some in Hd.
    destruct Hd as (_ & _ & Ei & _ & Ex & Ey & Ewd & Ehd).
    rewrite Eidx. cbn [CellRef.index]. split; [exact Ei |].
    unfold drawnOver. rewrite Ex, Ey, Ewd, Ehd, Erow, Ecol, Esx, Esy.
    fold cw ch. repeat split; assumption.
Qed.

Lemma pointer_cell_is_drawn_under_pointer_witness :
  let s := onWheel (-850) (-1200) (construct (repeat "x"%string 100) 400 400) in
  let s' := fst (render 0 s) in
  exists d,
    In d (snd (render 0 s)) /\
    Drawn.i d = CellRef.index (getCellIndexFromPoint 300 120 s') /\
    drawnOver s' d 300 120.
Proof.
  intros s s'.
  assert (Hs : reachable s)
    by apply (reach_step (OnWheel (-850) (-1200))), reach_construct.
  assert (Hn : noSnap s' = true) by (vm_compute; reflexivity).
  assert (Hl : List.length (emojis s') = 100%nat) by (vm_compute; reflexivity).
  assert (P1 : wholePixels (Vec3.x (camera s')) = true)
    by (vm_compute; reflexivity).
  assert (P2 : wholePixels (Vec3.y (camera s')) = true)
    by (vm_compute; reflexivity).
  assert (P3 : wholePixels (Box.width (viewport s')) = true)
    by (vm_compute; reflexivity).
  assert (P4 : wholePixels (Box.height (viewport s')) = true)
    by (vm_compute; reflexivity).
  assert (P5 : wholePixels (Size.width (cell s') / 4) = true)
    by (vm_compute; reflexivity).
  assert (Hx : 0 <= 300 < Box.width (viewport s'))
    by (vm_compute; split; [discriminate | reflexivity]).
  assert (Hy : 0 <= 120 < Box.height (viewport s'))
    by (vm_compute; split; [discriminate | reflexivity]).
  exact (pointer_cell_is_drawn_under_pointer 0 s 300 120 Hs Hn Hl
           P1 P2 P3 P4 P5 eq_refl eq_refl Hx Hy).
Defined.

(** ** Taps, clicks and hovering *)

(** X13.  Release and click judge a tap by the same horizontal displacement
    from the press start point, with different comparisons: below 10
    pixels the release clears the velocity and the click selects the
    cell under it; above 10 the release keeps the velocity and the click
    changes nothing; at exactly 10 the release keeps the velocity (a
    drag) while the click still selects (a tap). *)
Theorem release_and_click_thresholds (s : t) (x y : Q) :
  let d := Qabs (Vec2.x (pressStartPoint s) - x) in
  let released := onPress false (Some x) (Some y) s in
  let clicked := onClick x y released in
  (d < 10 ->
   velocity released = Vec2.mk 0 0 /\
   activeCell clicked = getCellIndexFromPoint x y released) /\
  (10 < d ->
   velocity released = velocity s /\ clicked = released) /\
  (d == 10 ->
   velocity released = velocity s /\
   activeCell clicked = getCellIndexFromPoint x y released).
Proof.
  intros d released clicked.
  assert (Ep : pressStartPoint released = pressStartPoint s).
  { unfold released, onPress. cbv iota zeta.
    destruct (Qltb _ 10); reflexivity. }
  assert (Ev : velocity released
               = if Qltb d 10 then Vec2.mk 0 0 else velocity s).
  { unfold released, onPress. cbv iota zeta.
    change (pressStartPoint (set_isPressed false s))
      with (pressStartPoint s).
    fold d. destruct (Qltb d 10); reflexivity. }
  assert (Ec : clicked
               = if Qltb 10 d then released
                 else set_activeCell (getCellIndexFromPoint x y released)
                        released).
  { unfold clicked, onClick. rewrite Ep. fold d. reflexivity. }
  rewrite Ev, Ec. split; [| split]; intros Hd.
  - assert (E1 : Qltb d 10 = true) by (now apply Qltb_lt).
    assert (E2 : Qltb 10 d = false) by (apply Qltb_ge; lra).
    rewrite E1, E2. split; reflexivity.
  - assert (E1 : Qltb d 10 = false) by (apply Qltb_ge; lra).
    assert (E2 : Qltb 10 d = true) by (now apply Qltb_lt).
    rewrite E1, E2. split; reflexivity.
  - assert (E1 : Qltb d 10 = false) by (apply Qltb_ge; lra).
    assert (E2 : Qltb 10 d = false) by (apply Qltb_ge; lra).
    rewrite E1, E2. split; reflexivity.
Qed.

Lemma release_and_click_thresholds_witness :
  let s := run [OnPress true (Some 100) (Some 0); OnMove 100 0; OnMove 90 0]
               (construct [] 400 400) in
  let released := onPress false (Some 90) (Some 0) s in
  let clicked := onClick 90 0 released in
  velocity released = velocity s /\
  activeCell clicked = getCellIndexFromPoint 90 0 released.
Proof.
  intros s released clicked.
  destruct (release_and_click_thresholds s 90 0) as (_ & _ & Hten).
  apply Hten. vm_compute. reflexivity.
Defined.

Lemma onMove_unpressed x y s :
  isPressed s = false ->
  camera (onMove x y s) = camera s /\
  viewport (onMove x y s) = viewport s /\
  velocity (onMove x y s) = velocity s /\
  isPressed (onMove x y s) = false /\
  hoveredCell (onMove x y s) = getCellIndexFromPoint x y s.
Proof.
  intros Hp. unfold onMove. cbv zeta. cbn. rewrite Hp. cbn.
  repeat split; try assumption.
Qed.

Lemma last_default {A : Type} (x : A) (l : list A) (d1 d2 : A) :
  last (x :: l) d1 = last (x :: l) d2.
Proof.
  revert x. induction l as [|y l IH]; intros x; [reflexivity |].
  change (last (y :: l) d1 = last (y :: l) d2). apply IH.
Qed.

Lemma run_cons o ops s : run (o :: ops) s = run ops (step o s).
Proof. reflexivity. Qed.

Lemma onMove_unpressed_addressing mx my s px py :
  isPressed s = false ->
  getCellIndexFromPoint px py (onMove mx my s)
  = getCellIndexFromPoint px py s.
Proof.
  intros Hp.
  destruct (onMove_unpressed mx my s Hp) as (Ec & _).
  pose proof (step_sizes (OnMove mx my) s) as (Eg & Ecl & _).
  cbn [step] in Eg, Ecl.
  unfold getCellIndexFromPoint, screenToCanvas. rewrite Ec, Eg, Ecl.
  reflexivity.
Qed.

(** X14.  Hovering never pans: while the pointer is not pressed, any sequence
    of moves leaves camera, viewport and velocity as they are, and the
    hovered cell ends as the cell addressed at the last pointer
    position. *)
Theorem hover_never_pans (s : t) (moves : list (Q * Q)) :
  isPressed s = false ->
  let s' := run (map (fun p => OnMove (fst p) (snd p)) moves) s in
  camera s' = camera s /\
  viewport s' = viewport s /\
  velocity s' = velocity s /\
  hoveredCell s'
  = last (map (fun p => getCellIndexFromPoint (fst p) (snd p) s) moves)
         (hoveredCell s).
Proof.
  revert s. induction moves as [|[mx my] rest IH]; intros s Hp.
  - cbn. repeat split.
  - cbn [map fst snd]. rewrite run_cons. cbn [step].
    destruct (onMove_unpressed mx my s Hp) as (Ec & Ev & El & Ep & Eh).
    destruct (IH (onMove mx my s) Ep) as (Ic & Iv & Il & Ih).
    cbv zeta. rewrite Ic, Iv, Il, Ih, Ec, Ev, El.
    repeat split.
    rewrite (map_ext _ _
               (fun p => onMove_unpressed_addressing mx my s
                           (fst p) (snd p) Hp)).
    destruct rest as [|p rest']; [cbn; exact Eh |].
    cbn [map].
    change (last (getCellIndexFromPoint mx my s :: ?l) ?d) with (last l d).
    apply last_default.
Qed.

Lemma hover_never_pans_witness :
  let s := onWheel (-50) 0 (construct [] 400 400) in
  let s' := run (map (fun p => OnMove (fst p) (snd p)) [(10, 10); (300, 200)])
                s in
  camera s' = camera s /\
  hoveredCell s' = getCellIndexFromPoint 300 200 s.
Proof.
  intros s s'.
  destruct (hover_never_pans s [(10, 10); (300, 200)] eq_refl)
    as (Hc & _ & _ & Hh).
  split; [exact Hc | exact Hh].
Defined.

(** X15.  The first move of a session, when no pointer position is known yet,
    records the point as both previous and current position; if the
    pointer is already pressed, the velocity it computes is zero and,
    with the camera inside the wrap range, the camera stays where it
    is. *)
Theorem first_move_does_not_pan (s : t) (x y : Q) :
  reachable s ->
  mouse s = None ->
  let s' := onMove x y s in
  mouse s' = Some (Mouse.mk (Vec2.mk x y) (Vec2.mk x y)) /\
  (isPressed s = true -> Vec2.isZero (velocity s')) /\
  (isPressed s = true -> noSnap s = true ->
   Vec3.x (camera s') == Vec3.x (camera s) /\
   Vec3.y (camera s') == Vec3.y (camera s)).
Proof.
  intros Hs Hm s'.
  destruct (reachable_invariant s Hs) as [Hz _ _].
  unfold s', onMove. rewrite Hm. cbv zeta.
  cbn [isPressed set_mouse Mouse.previous Mouse.current Vec2.x Vec2.y].
  split; [destruct (isPressed s); cbn; try reflexivity |].
  - match goal with
    | |- mouse (panCamera ?a ?b ?s0) = _ =>
        destruct (panCamera_shape a b s0) as (cx & cy & ->)
    end. reflexivity.
  - split.
    + intros Hp. rewrite Hp. cbn [velocity set_hoveredCell].
      rewrite panCamera_velocity. unfold Vec2.isZero, set_velocity.
      cbn [velocity Vec2.x Vec2.y]. split; ring.
    + intros Hp Hn. rewrite Hp. cbn [camera set_hoveredCell].
      match goal with
      | |- context [panCamera ?a ?b ?s0] =>
          destruct (panCamera_noSnap a b s0 Hn) as [-> ->]
      end.
      unfold set_velocity, set_mouse.
      cbn [camera velocity Vec2.x Vec2.y].
      rewrite Hz. split; field.
Qed.

Lemma first_move_does_not_pan_witness :
  let s := onPress true (Some 40) (Some 40) (construct [] 400 400) in
  Vec2.isZero (velocity (onMove 40 40 s)) /\
  Vec3.x (camera (onMove 40 40 s)) == Vec3.x (camera s).
Proof.
  intros s.
  assert (Hs : reachable s)
    by apply (reach_step (OnPress true (Some 40) (Some 40))), reach_construct.
  destruct (first_move_does_not_pan s 40 40 Hs eq_refl) as (_ & Hv & Hc).
  split; [apply Hv; reflexivity |].
  apply Hc; reflexivity.
Defined.

(** ** Resizing *)

(** X16.  A resize depends on no earlier size: resizing to [(w2, h2)] after a
    resize to [(w1, h1)] gives the state a single resize to [(w2, h2)]
    gives.  A resize leaves camera, velocity, press state, press start
    point, pointer, cells and glyph list as they are. *)
Theorem onResize_last_wins (w1 h1 w2 h2 : Q) (s : t) :
  onResize w2 h2 (onResize w1 h1 s) = onResize w2 h2 s /\
  camera (onResize w1 h1 s) = camera s /\
  velocity (onResize w1 h1 s) = velocity s /\
  isPressed (onResize w1 h1 s) = isPressed s /\
  pressStartPoint (onResize w1 h1 s) = pressStartPoint s /\
  mouse (onResize w1 h1 s) = mouse s /\
  activeCell (onResize w1 h1 s) = activeCell s /\
  hoveredCell (onResize w1 h1 s) = hoveredCell s /\
  emojis (onResize w1 h1 s) = emojis s.
Proof. unfold onResize, resize. repeat split. Qed.

(** ** The addressor on the torus *)






(** * Where doubles decide: the engine in binary64 *)

Section Binary64.
Import PrimFloat.
Local Open Scope float_scope.

Lemma jsFloorZ_finite (f : float) :
  Double.jsFloorZ f = None <-> Double.isFiniteNumber f = false.
Proof.
  unfold Double.jsFloorZ, Double.isFiniteNumber.
  destruct (FloatOps.Prim2SF f); split; intros H;
    try discriminate H; reflexivity.
Qed.

(** The remainder and the add-when-negative step on a floor that is an
    integer or not finite. *)
Lemma double_wrap (a : option Z) (n : Z) :
  (0 < n)%Z ->
  match
    match Double.jsRemZ a n with
    | Some c => if (0 <=? c)%Z then Some c else Some (n + c)%Z
    | None => None
    end
  with
  | Some z => a <> None /\ (0 <= z < n)%Z
  | None => a = None
  end.
Proof.
  intros Hn. unfold Double.jsRemZ.
  destruct a as [z|]; [| reflexivity].
  destruct (Z.eqb_spec n 0) as [E | _]; [lia |].
  pose proof (wrap_rem_bounds z n Hn) as Hb.
  destruct (0 <=? Z.rem z n)%Z; split; try discriminate; exact Hb.
Qed.

(** C4, as the code has it.  For every pair of doubles [(x, y)], in a
    state with positive grid counts: when the quotient
    [canvasPoint.x / cell.width] is a finite number the column is an
    integer in [[0, cols)], and when it is not (an overflow to an
    infinity, or NaN) the column is NaN; the same for the row with
    [canvasPoint.y / cell.height]; the index is [col + row * cols], in
    [[0, cols * rows)], when both are numbers and NaN otherwise.  No
    component is ever negative. *)
Theorem getCellIndexFromPoint_in_range_or_NaN
    (s : Double.CanvasAnimation.t) (x y : float) :
  (0 < Grid.cols (Double.CanvasAnimation.grid s))%Z ->
  (0 < Grid.rows (Double.CanvasAnimation.grid s))%Z ->
  let cols := Grid.cols (Double.CanvasAnimation.grid s) in
  let rows := Grid.rows (Double.CanvasAnimation.grid s) in
  let p := Double.CanvasAnimation.screenToCanvas (Double.Vec2.mk x y) s in
  let qx :=
    Double.Vec2.x p / Double.Size.width (Double.CanvasAnimation.cell s) in
  let qy :=
    Double.Vec2.y p / Double.Size.height (Double.CanvasAnimation.cell s) in
  let c := Double.CanvasAnimation.getCellIndexFromPoint x y s in
  (if Double.isFiniteNumber qx
   then exists z, Double.CellRef.col c = Some z /\ (0 <= z < cols)%Z
   else Double.CellRef.col c = None) /\
  (if Double.isFiniteNumber qy
   then exists z, Double.CellRef.row c = Some z /\ (0 <= z < rows)%Z
   else Double.CellRef.row c = None) /\
  Double.CellRef.index c
  = match Double.CellRef.col c, Double.CellRef.row c with
    | Some a, Some b => Some (a + b * cols)%Z
    | _, _ => None
    end /\
  (forall z, Double.CellRef.col c = Some z -> (0 <= z < cols)%Z) /\
  (forall z, Double.CellRef.row c = Some z -> (0 <= z < rows)%Z) /\
  (forall z, Double.CellRef.index c = Some z -> (0 <= z < cols * rows)%Z).
Proof.
  intros Hc Hr cols rows p qx qy c.
  unfold c, Double.CanvasAnimation.getCellIndexFromPoint. cbv zeta.
  fold p. fold qx qy. fold cols rows.
  cbn [Double.CellRef.col Double.CellRef.row Double.CellRef.index].
  pose proof (double_wrap (Double.jsFloorZ qx) cols Hc) as Hx.
  pose proof (double_wrap (Double.jsFloorZ qy) rows Hr) as Hy.
  pose proof (jsFloorZ_finite qx) as Fx.
  pose proof (jsFloorZ_finite qy) as Fy.
  destruct (match Double.jsRemZ (Double.jsFloorZ qx) cols with
            | Some c0 => _ | None => None end) as [a|];
    destruct (match Double.jsRemZ (Double.jsFloorZ qy) rows with
              | Some r0 => _ | None => None end) as [b|].
  - destruct Hx as [Nx Bx], Hy as [Ny By].
    destruct (Double.isFiniteNumber qx);
      [| exfalso; apply Nx, Fx; reflexivity].
    destruct (Double.isFiniteNumber qy);
      [| exfalso; apply Ny, Fy; reflexivity].
    split; [exists a; auto |]. split; [exists b; auto |].
    split; [reflexivity |].
    split; [intros z [= <-]; lia |].
    split; [intros z [= <-]; lia |].
    intros z [= <-]. nia.
  - destruct Hx as [Nx Bx]. apply Fy in Hy. rewrite Hy.
    destruct (Double.isFiniteNumber qx);
      [| exfalso; apply Nx, Fx; reflexivity].
    split; [exists a; auto |]. split; [reflexivity |].
    split; [reflexivity |].
    split; [intros z [= <-]; lia |].
    split; intros z; discriminate.
  - destruct Hy as [Ny By]. apply Fx in Hx. rewrite Hx.
    destruct (Double.isFiniteNumber qy);
      [| exfalso; apply Ny, Fy; reflexivity].
    split; [reflexivity |]. split; [exists b; auto |].
    split; [reflexivity |].
    split; [intros z; discriminate |].
    split; [intros z [= <-]; lia | intros z; discriminate].
  - apply Fx in Hx. apply Fy in Hy. rewrite Hx, Hy.
    repeat (split; [try reflexivity; intros z; discriminate |]).
    intros z; discriminate.
Qed.

Lemma getCellIndexFromPoint_in_range_or_NaN_witness :
  let s := Double.CanvasAnimation.construct [] 400 400 in
  let c := Double.CanvasAnimation.getCellIndexFromPoint (-50) (-50) s in
  (exists z, Double.CellRef.col c = Some z /\ (0 <= z < 10)%Z) /\
  (forall z, Double.CellRef.index c = Some z -> (0 <= z < 10 * 10)%Z).
Proof.
  intros s c.
  assert (Hc : (0 < Grid.cols (Double.CanvasAnimation.grid s))%Z)
    by reflexivity.
  assert (Hr : (0 < Grid.rows (Double.CanvasAnimation.grid s))%Z)
    by reflexivity.
  destruct (getCellIndexFromPoint_in_range_or_NaN s (-50) (-50) Hc Hr)
    as (Hcol & _ & _ & _ & _ & Hidx).
  split; [exact Hcol | exact Hidx].
Defined.

(** C4, as the specification words it, fails: with a 2 x 2 viewport the
    cell is 0.5 wide, and at the finite coordinate [x = 2^1023] the
    quotient overflows: column and index are NaN, not numbers in
    [[0, cols)] and [[0, cols * rows)]. *)
Lemma getCellIndexFromPoint_overflows :
  let s := Double.CanvasAnimation.construct [] 2 2 in
  let c := Double.CanvasAnimation.getCellIndexFromPoint 0x1p1023 0 s in
  Double.Size.width (Double.CanvasAnimation.cell s) = 0.5 /\
  Double.Size.height (Double.CanvasAnimation.cell s) = 0.625 /\
  Double.isFiniteNumber 0x1p1023 = true /\
  Double.CellRef.col c = None /\
  Double.CellRef.index c = None /\
  ~ (exists z, Double.CellRef.col c = Some z /\ (0 <= z < 10)%Z).
Proof.
  intros s c.
  assert (E : Double.CellRef.col c = None) by (vm_compute; reflexivity).
  repeat split; try (vm_compute; reflexivity).
  intros (z & Hz & _). rewrite E in Hz. discriminate Hz.
Qed.

(** C1, as the specification words it, fails: after a wheel event has
    put the camera at [x = -1e19] (scale 1, cell 100 x 125), the frame
    draws cell 1 with its rectangle at [x = 1100]; the screen-space
    centre [camera.x + 1100 + 50] rounds to [-1e19 + 2048], and
    [getCellIndexFromPoint] there returns index 0, not 1. *)
Lemma addressor_misses_at_huge_camera :
  let s := Double.CanvasAnimation.onWheel (-1e19) 0
             (Double.CanvasAnimation.construct ["a"; "b"; "c"]%string
                400 400) in
  let s' := fst (Double.CanvasAnimation.render 0 s) in
  let d := nth 1 (snd (Double.CanvasAnimation.render 0 s))
             (Double.Drawn.mk 0 0 0 0 0 0 0 "" 0 0) in
  Double.Vec3.z (Double.CanvasAnimation.camera s') = 1 /\
  Double.Vec3.x (Double.CanvasAnimation.camera s') = -1e19 /\
  Double.CanvasAnimation.cell s' = Double.Size.mk 100 125 /\
  In d (snd (Double.CanvasAnimation.render 0 s)) /\
  Double.Drawn.i d = 1%Z /\
  Double.Drawn.rectX d = 1100 /\
  Double.CellRef.index
    (Double.CanvasAnimation.getCellIndexFromPoint
       (Double.Vec3.x (Double.CanvasAnimation.camera s')
        + Double.Drawn.rectX d + Double.Drawn.rectW d / 2)
       (Double.Vec3.y (Double.CanvasAnimation.camera s')
        + Double.Drawn.rectY d + Double.Drawn.rectH d / 2) s')
  = Some 0%Z.
Proof.
  intros s s' d.
  repeat split; try (vm_compute; reflexivity).
  vm_compute. right. left. reflexivity.
Qed.

(** ** Cells selected and hovered, in binary64 *)

Lemma double_panCamera_shape dx dy s :
  exists cx cy,
    Double.CanvasAnimation.panCamera dx dy s
    = Double.CanvasAnimation.refreshViewport
        (Double.CanvasAnimation.set_camera_y cy
           (Double.CanvasAnimation.set_camera_x cx s)).
Proof.
  unfold Double.CanvasAnimation.panCamera.
  assert (Hx : exists cx,
             Double.CanvasAnimation.panCameraX dx s
             = Double.CanvasAnimation.set_camera_x cx s).
  { unfold Double.CanvasAnimation.panCameraX. split_ifs; eexists; reflexivity. }
  destruct Hx as [cx ->].
  assert (Hy : exists cy,
             Double.CanvasAnimation.panCameraY dy
               (Double.CanvasAnimation.set_camera_x cx s)
             = Double.CanvasAnimation.set_camera_y cy
                 (Double.CanvasAnimation.set_camera_x cx s)).
  { unfold Double.CanvasAnimation.panCameraY. split_ifs; eexists; reflexivity. }
  destruct Hy as [cy ->]. eauto.
Qed.

Lemma double_panCamera_frame dx dy s :
  Double.CanvasAnimation.grid (Double.CanvasAnimation.panCamera dx dy s)
  = Double.CanvasAnimation.grid s /\
  Double.CanvasAnimation.activeCell (Double.CanvasAnimation.panCamera dx dy s)
  = Double.CanvasAnimation.activeCell s /\
  Double.CanvasAnimation.hoveredCell (Double.CanvasAnimation.panCamera dx dy s)
  = Double.CanvasAnimation.hoveredCell s.
Proof.
  destruct (double_panCamera_shape dx dy s) as (cx & cy & ->).
  repeat split.
Qed.

Lemma double_animateVelocity_frame s :
  Double.CanvasAnimation.grid (Double.CanvasAnimation.animateVelocity s)
  = Double.CanvasAnimation.grid s /\
  Double.CanvasAnimation.activeCell (Double.CanvasAnimation.animateVelocity s)
  = Double.CanvasAnimation.activeCell s /\
  Double.CanvasAnimation.hoveredCell (Double.CanvasAnimation.animateVelocity s)
  = Double.CanvasAnimation.hoveredCell s.
Proof.
  unfold Double.CanvasAnimation.animateVelocity.
  split_ifs; try (repeat split; reflexivity).
  cbv zeta.
  destruct (double_panCamera_frame
              (Double.Vec2.x (Double.CanvasAnimation.velocity s))
              (Double.Vec2.y (Double.CanvasAnimation.velocity s)) s)
    as (Hg & Ha & Hh).
  repeat split; assumption.
Qed.

Lemma double_addressed_cell x y s :
  Double.CanvasAnimation.grid s = Grid.mk 10 10 ->
  gridCellOrNaN (Double.CanvasAnimation.getCellIndexFromPoint x y s).
Proof.
  intros Hg.
  unfold gridCellOrNaN, Double.CanvasAnimation.getCellIndexFromPoint.
  cbv zeta. rewrite Hg.
  cbn [Grid.cols Grid.rows
       Double.CellRef.col Double.CellRef.row Double.CellRef.index].
  set (qx := Double.jsFloorZ _). set (qy := Double.jsFloorZ _).
  pose proof (double_wrap qx 10 eq_refl) as Hx.
  pose proof (double_wrap qy 10 eq_refl) as Hy.
  destruct (match Double.jsRemZ qx 10 with
            | Some c0 => _ | None => None end) as [a|];
    destruct (match Double.jsRemZ qy 10 with
              | Some r0 => _ | None => None end) as [b|];
    (split; [intros z E | split; [intros z E | reflexivity]]);
    try discriminate E; injection E as <-; tauto.
Qed.

Lemma double_step_cells o s :
  Double.CanvasAnimation.grid s = Grid.mk 10 10 ->
  gridCellOrNaN (Double.CanvasAnimation.activeCell s) ->
  gridCellOrNaN (Double.CanvasAnimation.hoveredCell s) ->
  let s' := Double.CanvasAnimation.step o s in
  Double.CanvasAnimation.grid s' = Grid.mk 10 10 /\
  gridCellOrNaN (Double.CanvasAnimation.activeCell s') /\
  gridCellOrNaN (Double.CanvasAnimation.hoveredCell s').
Proof.
  intros Hg Ha Hh s'. unfold s'. clear s'.
  destruct o as [ts|x y|b x y|x y|dx dy|w h];
    cbn [Double.CanvasAnimation.step].
  - unfold Double.CanvasAnimation.render. cbn [fst].
    destruct (double_animateVelocity_frame s) as (-> & -> & ->). auto.
  - unfold Double.CanvasAnimation.onMove. cbv zeta.
    match goal with
    | |- context [Double.CanvasAnimation.set_hoveredCell _ ?s2] =>
        assert (H2 : Double.CanvasAnimation.grid s2 = Grid.mk 10 10 /\
                     Double.CanvasAnimation.activeCell s2
                     = Double.CanvasAnimation.activeCell s)
    end.
    { cbn [Double.CanvasAnimation.isPressed Double.CanvasAnimation.set_mouse].
      destruct (Double.CanvasAnimation.isPressed s); [| auto].
      match goal with
      | |- context [Double.CanvasAnimation.panCamera ?a ?b ?s0] =>
          destruct (double_panCamera_frame a b s0) as (-> & -> & _)
      end. auto. }
    destruct H2 as [Hg2 Ha2].
    cbn [Double.CanvasAnimation.grid Double.CanvasAnimation.activeCell
         Double.CanvasAnimation.hoveredCell
         Double.CanvasAnimation.set_hoveredCell].
    rewrite Ha2. split; [exact Hg2 |]. split; [exact Ha |].
    apply double_addressed_cell, Hg2.
  - unfold Double.CanvasAnimation.onPress. split_ifs; auto.
  - unfold Double.CanvasAnimation.onClick. split_ifs; [auto |].
    cbn [Double.CanvasAnimation.grid Double.CanvasAnimation.activeCell
         Double.CanvasAnimation.hoveredCell
         Double.CanvasAnimation.set_activeCell].
    split; [exact Hg |]. split; [| exact Hh].
    apply double_addressed_cell, Hg.
  - unfold Double.CanvasAnimation.onWheel.
    destruct (double_panCamera_frame (- dx) (- dy) s) as (-> & -> & ->).
    auto.
  - unfold Double.CanvasAnimation.onResize, Double.CanvasAnimation.resize.
    auto.
Qed.

(** X11.  In binary64, in every session, whatever sizes, deltas and
    coordinates it is given (zero, huge, infinite or NaN included), the
    active and the hovered cell are, component by component, NaN or a
    cell of the grid: a column and a row that are numbers lie in
    [[0, 10)], and the index is [col + row * 10] when both are numbers
    and NaN otherwise.  No component is ever negative or beyond the
    grid. *)
Theorem cells_are_grid_cells_or_NaN
    (source : list string) (w h : float)
    (ops : list Double.CanvasAnimation.Op) :
  let s := Double.CanvasAnimation.run ops
             (Double.CanvasAnimation.construct source w h) in
  gridCellOrNaN (Double.CanvasAnimation.activeCell s) /\
  gridCellOrNaN (Double.CanvasAnimation.hoveredCell s).
Proof.
  intros s.
  assert (H : forall s0,
             Double.CanvasAnimation.grid s0 = Grid.mk 10 10 ->
             gridCellOrNaN (Double.CanvasAnimation.activeCell s0) ->
             gridCellOrNaN (Double.CanvasAnimation.hoveredCell s0) ->
             gridCellOrNaN
               (Double.CanvasAnimation.activeCell
                  (Double.CanvasAnimation.run ops s0)) /\
             gridCellOrNaN
               (Double.CanvasAnimation.hoveredCell
                  (Double.CanvasAnimation.run ops s0))).
  { induction ops as [|o ops IH]; intros s0 Hg Ha Hh; [auto |].
    destruct (double_step_cells o s0 Hg Ha Hh) as (Hg' & Ha' & Hh').
    exact (IH _ Hg' Ha' Hh'). }
  apply H.
  - reflexivity.
  - unfold gridCellOrNaN. cbn.
    split; [intros z [= <-]; lia |].
    split; [intros z [= <-]; lia | reflexivity].
  - unfold gridCellOrNaN. cbn.
    split; [intros z [= <-]; lia |].
    split; [intros z [= <-]; lia | reflexivity].
Qed.

(** A session of the kind the exact model cannot follow: a press, a
    move to [x = 2^1023] over a 2 x 2 viewport.  The hovered column and
    index are NaN, the row is 0. *)
Lemma hovered_cell_can_be_NaN :
  let s := Double.CanvasAnimation.run
             [Double.CanvasAnimation.OnMove 0x1p1023 0]
             (Double.CanvasAnimation.construct [] 2 2) in
  Double.CanvasAnimation.hoveredCell s
  = Double.CellRef.mk None None (Some 0%Z).
Proof. vm_compute. reflexivity. Qed.

(** ** Samples of the two regimes *)

(** At the edge of the magnitudes of C1 (camera at [-10^9] on both axes,
    cell 1 wide) the binary64 engine agrees with the exact one: every
    cell the frame draws, all 100 of them, is addressed at its centre as
    itself. *)
Lemma binary64_agreement_at_the_bounds :
  let s := Double.CanvasAnimation.onWheel (-1e9) (-1e9)
             (Double.CanvasAnimation.construct (repeat "x"%string 100) 4 4) in
  let s' := fst (Double.CanvasAnimation.render 0 s) in
  Double.CanvasAnimation.camera s' = Double.Vec3.mk (-1e9) (-1e9) 1 /\
  Double.Size.width (Double.CanvasAnimation.cell s') = 1 /\
  List.length (snd (Double.CanvasAnimation.render 0 s)) = 100%nat /\
  forallb
    (fun d =>
       match
         Double.CellRef.index
           (Double.CanvasAnimation.getCellIndexFromPoint
              (Double.Vec3.x (Double.CanvasAnimation.camera s')
               + Double.Drawn.rectX d + Double.Drawn.rectW d / 2)
              (Double.Vec3.y (Double.CanvasAnimation.camera s')
               + Double.Drawn.rectY d + Double.Drawn.rectH d / 2) s')
       with
       | Some i => (i =? Double.Drawn.i d)%Z
       | None => false
       end)
    (snd (Double.CanvasAnimation.render 0 s)) = true.
Proof. intros s s'. repeat split; vm_compute; reflexivity. Qed.

(** Between pixels the sum of pointer and camera offset can round
    across a cell edge.  Viewport 300 x 300 (cell 75), camera at the
    double nearest -719.3, pointer at the double nearest 30.7: the sum
    rounds to 750, cell 0 is addressed, and the rectangle drawn for
    cell 0 starts right of the pointer. *)
Lemma binary64_rounds_across_a_cell_edge :
  let px := 0x1.eb33333333333p+4 in
  let s := Double.CanvasAnimation.onWheel (- 0x1.67a6666666666p+9) 0
             (Double.CanvasAnimation.construct (repeat "x"%string 100)
                300 300) in
  let s' := fst (Double.CanvasAnimation.render 0 s) in
  let d := nth 0 (snd (Double.CanvasAnimation.render 0 s))
             (Double.Drawn.mk 1 0 0 0 0 0 0 "" 0 0) in
  Double.CellRef.index (Double.CanvasAnimation.getCellIndexFromPoint px 0 s')
  = Some 0%Z /\
  Double.Drawn.i d = 0%Z /\
  (px <? Double.Vec3.x (Double.CanvasAnimation.camera s')
         + Double.Drawn.rectX d) = true.
Proof. intros px s s' d. repeat split; vm_compute; reflexivity. Qed.

End Binary64.
